(** * japanese-study-app: segmentation, definition resolver and popup placement

    A shallow embedding of the three algorithmic parts of the
    [JapaneseStudyApp] class, in the version that looks definitions up on
    demand (the one with [fallbackDefinitions]):

    - [makeWordsClickable] (tokenizer and annotator),
    - [getWordDefinition] and [showWordPopup] (definition resolver and cache),
    - [positionPopup] (popup placement).

    JavaScript strings are sequences of UTF-16 code units; every character
    the program inspects lies in the Basic Multilingual Plane, so a string is
    modelled as the list of its code units.  Regular expressions without the
    [u] flag work on code units as well.  Calls of [console.log] and
    [console.error] are left out. *)

From Stdlib Require Import ZArith List Bool Lia String Ascii QArith Qminmax Lqa.
From stdpp Require Import base list gmap.

Open Scope Z_scope.

(** ** Strings *)

Module Js.

Definition jsstring := list Z.

(** An ASCII literal of the source, as code units. *)
Definition lit (s : string) : jsstring :=
  map (fun a => Z.of_N (N_of_ascii a)) (list_ascii_of_string s).

Definition DQUOTE : Z := 34.
Definition DOLLAR : Z := 36.
Definition LT : Z := 60.
Definition GT : Z := 62.
Definition BACKSLASH : Z := 92.
Definition NEWLINE : Z := 10.

(** [s.startsWith(w)], returning the rest of [s] after [w]. *)
Fixpoint stripPrefix (w s : jsstring) : option jsstring :=
  match w, s with
  | [], _ => Some s
  | _ :: _, [] => None
  | a :: w', b :: s' => if a =? b then stripPrefix w' s' else None
  end.

(** [text.replace(/\n/g, "<br>")]. *)
Definition nl2br (text : jsstring) : jsstring :=
  flat_map (fun c => if c =? NEWLINE then lit "<br>" else [c]) text.

End Js.

Import Js.

(** ** makeWordsClickable *)

Module Text.

(** The [particles] array, in source order. *)
Definition particles : list jsstring :=
  [ [0x306F] (* は *); [0x304C] (* が *); [0x3092] (* を *); [0x306B] (* に *);
    [0x3067] (* で *); [0x3068] (* と *); [0x3082] (* も *); [0x306E] (* の *);
    [0x304B; 0x3089] (* から *); [0x307E; 0x3067] (* まで *);
    [0x3088; 0x308A] (* より *); [0x3078] (* へ *);
    [0x3084] (* や *); [0x304B] (* か *); [0x3088] (* よ *); [0x306D] (* ね *);
    [0x308F] (* わ *); [0x3055] (* さ *); [0x305E] (* ぞ *); [0x305C] (* ぜ *);
    [0x306A] (* な *); [0x3060] (* だ *); [0x3067; 0x3042; 0x308B] (* である *);
    [0x3067; 0x3059] (* です *); [0x307E; 0x3059] (* ます *);
    [0x3060; 0x3063] (* だっ *); [0x3067; 0x3042; 0x3063] (* であっ *);
    [0x3068; 0x3044; 0x3046] (* という *);
    [0x3068; 0x3044; 0x3063; 0x305F] (* といった *) ].

(** [particles.includes(word)]. *)
Definition includes (l : list jsstring) (w : jsstring) : bool :=
  bool_decide (w ∈ l).

(** The character class of [meaningfulWordRegex]:
    一-龯 (4E00-9FAF), ひ-ゖ (3072-3096), ヰ-ヷ (30F0-30F7),
    ァ-ヺ (30A1-30FA) and ー (30FC). *)
Definition inClass (c : Z) : bool :=
  ((0x4E00 <=? c) && (c <=? 0x9FAF))
  || ((0x3072 <=? c) && (c <=? 0x3096))
  || ((0x30F0 <=? c) && (c <=? 0x30F7))
  || ((0x30A1 <=? c) && (c <=? 0x30FA))
  || (c =? 0x30FC).

(** The successive values of [match[1]] in the loop
    [while ((match = meaningfulWordRegex.exec(text)) !== null)]: the maximal
    runs of class characters, left to right ([{1,}] is greedy and the regex
    is global).  [run] is the run being read. *)
Fixpoint execAll (run text : jsstring) : list jsstring :=
  match text with
  | [] => match run with [] => [] | _ :: _ => [run] end
  | c :: rest =>
      if inClass c then execAll (run ++ [c]) rest
      else match run with
           | [] => execAll [] rest
           | _ :: _ => run :: execAll [] rest
           end
  end.

Definition meaningfulWordRegex (text : jsstring) : list jsstring :=
  execAll [] text.

(** [Set.prototype.add] on a [Set] kept in insertion order. *)
Definition setAdd (s : list jsstring) (w : jsstring) : list jsstring :=
  if includes s w then s else s ++ [w].

(** The body of the loop: the guard and the insertion. *)
Definition addCandidate (s : list jsstring) (word : jsstring) : list jsstring :=
  if negb (includes particles word) && (1 <=? Z.of_nat (length word))
  then setAdd s word else s.

(** The set [wordsToMakeClickable] after the loop, in insertion order. *)
Definition wordsToMakeClickable (text : jsstring) : list jsstring :=
  fold_left addCandidate (meaningfulWordRegex text) [].

(** Insertion for [sort((a, b) => b.length - a.length)]: the sort is stable,
    so a word moves only past strictly longer ones. *)
Fixpoint insertByLength (w : jsstring) (l : list jsstring) : list jsstring :=
  match l with
  | [] => [w]
  | v :: l' =>
      if (length w <? length v)%nat then v :: insertByLength w l' else w :: l
  end.

Definition sortByLength (l : list jsstring) : list jsstring :=
  foldr insertByLength [] l.

Definition sortedWords (text : jsstring) : list jsstring :=
  sortByLength (wordsToMakeClickable text).

(** The characters of the class [[.*+?^${}()|[\]\\]] of [escapeRegex]. *)
Definition regexSpecial (c : Z) : bool :=
  bool_decide (c ∈ [46; 42; 43; 63; 94; 36; 123; 125; 40; 41; 124; 91; 93; 92]).

Definition escapeRegex (s : jsstring) : jsstring :=
  flat_map (fun c => if regexSpecial c then [BACKSLASH; c] else [c]) s.

(** Matching an escaped literal at the head of [s]: a backslash makes the
    next pattern character literal; the rest of [s] is returned. *)
Fixpoint matchEscaped (pat s : jsstring) {struct pat} : option jsstring :=
  match pat with
  | [] => Some s
  | p :: pat' =>
      if p =? BACKSLASH then
        match pat', s with
        | q :: pat'', b :: s' => if q =? b then matchEscaped pat'' s' else None
        | _, _ => None
        end
      else
        match s with
        | b :: s' => if p =? b then matchEscaped pat' s' else None
        | [] => None
        end
  end.

(** [<[^>]*>] matches at the head of [s]. *)
Definition tagAhead (s : jsstring) : bool :=
  match s with
  | c :: rest => (c =? LT) && existsb (fun d => d =? GT) rest
  | [] => false
  end.

(** [[^<]*>] matches at the head of [s]: reading on from here, a [>] comes
    before any [<]. *)
Fixpoint closesTag (s : jsstring) : bool :=
  match s with
  | [] => false
  | c :: rest => if c =? GT then true else if c =? LT then false else closesTag rest
  end.

(** The regex [(?!<[^>]*>)(WORD)(?![^<]*>)] tried at the head of [s], where
    [pat] is the escaped word; returns the text after the match. *)
Definition matchHere (pat s : jsstring) : option jsstring :=
  if tagAhead s then None
  else match matchEscaped pat s with
       | Some rest => if closesTag rest then None else Some rest
       | None => None
       end.

(** The replacement template of the source,
    [<span class="clickable-word" data-word="${word}" data-source="dynamic">${word}</span>],
    in three pieces.  A word of the tokenizer holds class characters only
    (lemma [wordsToMakeClickable_inClass] below), hence no dollar sign, and
    the template is inserted as it stands. *)
Definition openTag : jsstring :=
  lit "<span class=" ++ [DQUOTE] ++ lit "clickable-word" ++ [DQUOTE]
  ++ lit " data-word=" ++ [DQUOTE].

Definition spanOpen (word : jsstring) : jsstring :=
  openTag ++ word ++ [DQUOTE]
  ++ lit " data-source=" ++ [DQUOTE] ++ lit "dynamic" ++ [DQUOTE] ++ lit ">".

Definition spanClose : jsstring := lit "</span>".

Definition spanMarkup (word : jsstring) : jsstring :=
  spanOpen word ++ word ++ spanClose.

(** [s.replace(regex, repl)] for the global regex above.  [skip] counts the
    characters still covered by the last match.  An empty match (possible
    only for an empty word) inserts [repl] and moves on by one character. *)
Fixpoint replaceFrom (pat repl : jsstring) (skip : nat) (s : jsstring) : jsstring :=
  match s with
  | [] =>
      match skip, matchHere pat [] with
      | O, Some _ => repl
      | _, _ => []
      end
  | c :: rest =>
      match skip with
      | S k => replaceFrom pat repl k rest
      | O =>
          match matchHere pat s with
          | Some after =>
              let n := (length s - length after)%nat in
              match n with
              | O => repl ++ c :: replaceFrom pat repl 0 rest
              | S k => repl ++ replaceFrom pat repl k rest
              end
          | None => c :: replaceFrom pat repl 0 rest
          end
      end
  end.

(** One round of the [forEach]: wrap the occurrences of [word]. *)
Definition wrapWord (clickableText word : jsstring) : jsstring :=
  replaceFrom (escapeRegex word) (spanMarkup word) 0 clickableText.

(** The whole [sortedWords.forEach(...)] loop. *)
Definition wrapWords (words : list jsstring) (text : jsstring) : jsstring :=
  fold_left wrapWord words text.

Definition makeWordsClickable (text : jsstring) : jsstring :=
  nl2br (wrapWords (sortedWords text) text).

(** The interactive spans of a markup string as [bindWordClickEvents] finds
    them with [querySelectorAll(".clickable-word")] and [dataset.word]: the
    [data-word] values of the opening tags written by [spanMarkup], in
    document order. *)
Fixpoint untilQuote (s : jsstring) : jsstring :=
  match s with
  | [] => []
  | c :: rest => if c =? DQUOTE then [] else c :: untilQuote rest
  end.

Fixpoint clickableWords (markup : jsstring) : list jsstring :=
  match markup with
  | [] => []
  | _ :: rest =>
      match stripPrefix openTag markup with
      | Some after => untilQuote after :: clickableWords rest
      | None => clickableWords rest
      end
  end.

End Text.

Import Text.

(** ** positionPopup *)

Module Popup.

Local Open Scope Q_scope.

(** Coordinates and sizes are CSS pixels.  They are modelled as exact
    rationals: the only division is by two, and rounding, [NaN] and the
    infinities of the floating-point numbers are left out. *)

(** [a > b], [a < b] and [Math.max(a, b)]. *)
Definition gtb (a b : Q) : bool := negb (Qle_bool a b).
Definition ltb (a b : Q) : bool := negb (Qle_bool b a).
Definition Math_max (a b : Q) : Q := if Qle_bool a b then b else a.

(** The part of [window] that is read. *)
Record Window := {
  scrollX : Q;
  scrollY : Q;
  innerWidth : Q;
  innerHeight : Q
}.

(** The two events bound to [showWordPopup]: a [click] with its [clientX] and
    [clientY], or a [touchend] with the [pageX] and [pageY] of
    [changedTouches[0]]. *)
Inductive Event :=
  | Click (clientX clientY : Q)
  | TouchEnd (pageX pageY : Q).

(** [popup.getBoundingClientRect()]. *)
Record Rect := { width : Q; height : Q }.

(** [popup.style.top] and [popup.style.left], in pixels. *)
Record Style := { style_top : Q; style_left : Q }.

(** The first half of [positionPopup]: the trigger point in viewport
    coordinates. *)
Definition touchPoint (window : Window) (event : Event) : Q * Q :=
  match event with
  | TouchEnd pageX pageY => (pageX - scrollX window, pageY - scrollY window)
  | Click clientX clientY => (clientX, clientY)
  end.

(** The callback given to [requestAnimationFrame]. *)
Definition frame (touchX touchY viewportHeight viewportWidth : Q)
    (popupRect : Rect) : Style :=
  let popupHeight := height popupRect in
  let popupWidth := width popupRect in
  let left := touchX - popupWidth / 2 in
  let top := touchY - popupHeight - 20 in
  let left :=
    if gtb (left + popupWidth) (viewportWidth - 20)
    then viewportWidth - popupWidth - 20 else left in
  let left := if ltb left 20 then 20 else left in
  let top := if ltb top 20 then touchY + 20 else top in
  let top :=
    if gtb (top + popupHeight) (viewportHeight - 20)
    then Math_max 20 ((viewportHeight - popupHeight) / 2) else top in
  {| style_top := top; style_left := left |}.

Definition positionPopup (window : Window) (event : Event) (popupRect : Rect) : Style :=
  let '(touchX, touchY) := touchPoint window event in
  let viewportHeight := innerHeight window in
  let viewportWidth := innerWidth window in
  frame touchX touchY viewportHeight viewportWidth popupRect.

End Popup.

(** ** positionPopup in double arithmetic *)

From Stdlib Require Floats.

(** The numbers of the engine are IEEE 754 doubles.  [Popup] above works with
    exact rationals, which is enough for the margins it is used for; here the
    same code is taken on doubles, operation for operation, so that rounding,
    [NaN] and the infinities are those of the program. *)
Module PopupDoubles.

Import PrimFloat.
Local Open Scope float_scope.

(** [Math.max(a, b)]: [NaN] when either is; of two zeros the positive one. *)
Definition Math_max (a b : float) : float :=
  if is_nan a || is_nan b then nan
  else if a <? b then b
  else if b <? a then a
  else if is_zero a && get_sign a then b
  else a.

Record Window := {
  scrollX : float;
  scrollY : float;
  innerWidth : float;
  innerHeight : float
}.

Inductive Event :=
  | Click (clientX clientY : float)
  | TouchEnd (pageX pageY : float).

Record Rect := { width : float; height : float }.

Record Style := { style_top : float; style_left : float }.

Definition touchPoint (window : Window) (event : Event) : float * float :=
  match event with
  | TouchEnd pageX pageY => (pageX - scrollX window, pageY - scrollY window)
  | Click clientX clientY => (clientX, clientY)
  end.

(** The callback given to [requestAnimationFrame]; [a > b] is [b <? a]. *)
Definition frame (touchX touchY viewportHeight viewportWidth : float)
    (popupRect : Rect) : Style :=
  let popupHeight := height popupRect in
  let popupWidth := width popupRect in
  let left := touchX - popupWidth / 2 in
  let top := touchY - popupHeight - 20 in
  let left :=
    if viewportWidth - 20 <? left + popupWidth
    then viewportWidth - popupWidth - 20 else left in
  let left := if left <? 20 then 20 else left in
  let top := if top <? 20 then touchY + 20 else top in
  let top :=
    if viewportHeight - 20 <? top + popupHeight
    then Math_max 20 ((viewportHeight - popupHeight) / 2) else top in
  {| style_top := top; style_left := left |}.

Definition positionPopup (window : Window) (event : Event) (popupRect : Rect) : Style :=
  let '(touchX, touchY) := touchPoint window event in
  let viewportHeight := innerHeight window in
  let viewportWidth := innerWidth window in
  frame touchX touchY viewportHeight viewportWidth popupRect.

End PopupDoubles.

(** The placement as the amended claim words it, in double arithmetic, to be
    compared with [PopupDoubles.frame]. *)
Module PlacementSpec.

Import PrimFloat.
Local Open Scope float_scope.

Definition margin : float := 20.

(** Horizontally the left edge ends in one of three places: centred on the
    trigger, shifted so that the right edge sits at the viewport width less
    the margin, or at the margin. *)
Inductive Side := OnTrigger | Shifted | AtMargin.

Definition centredLeft (x w : float) : float := x - w / 2.
Definition shiftedLeft (w vw : float) : float := vw - w - margin.

(** The box is centred; when its right edge would pass the viewport width
    less the margin it is shifted; and whichever of the two it is, when its
    left edge is then less than the margin it goes to the margin. *)
Definition side (x w vw : float) : Side :=
  if vw - margin <? centredLeft x w + w
  then if shiftedLeft w vw <? margin then AtMargin else Shifted
  else if centredLeft x w <? margin then AtMargin else OnTrigger.

Definition sideLeft (s : Side) (x w vw : float) : float :=
  match s with
  | OnTrigger => centredLeft x w
  | Shifted => shiftedLeft w vw
  | AtMargin => margin
  end.

Inductive Tier := Above | Below | Centered.

Definition aboveTop (y h : float) : float := y - h - margin.
Definition belowTop (y : float) : float := y + margin.
Definition centeredTop (h vh : float) : float :=
  PopupDoubles.Math_max margin ((vh - h) / 2).

(** Above, unless that top is less than the margin, then below; and
    whichever of the two it is, when its bottom edge passes the viewport
    height less the margin the box is centred. *)
Definition tier (y h vh : float) : Tier :=
  if aboveTop y h <? margin
  then if vh - margin <? belowTop y + h then Centered else Below
  else if vh - margin <? aboveTop y h + h then Centered else Above.

Definition tierTop (t : Tier) (y h vh : float) : float :=
  match t with
  | Above => aboveTop y h
  | Below => belowTop y
  | Centered => centeredTop h vh
  end.

End PlacementSpec.

(** ** getWordDefinition and showWordPopup *)

Module Resolver.

(** *** Values *)

(** The values [JSON.parse] can return, and [undefined].  A number is kept as
    what this program can observe of it: whether it is truthy (neither zero
    nor [NaN]) and its string form. *)
#[warnings="-register-all"]
Inductive JSValue :=
  | JUndefined
  | JNull
  | JBool (b : bool)
  | JNumber (nonzero : bool) (shown : jsstring)
  | JString (s : jsstring)
  | JArray (elements : list JSValue)
  | JObject (properties : list (jsstring * JSValue)).

Inductive Exception :=
  | TypeError
  | SyntaxError
  | HttpError (status : Z) (statusText : jsstring)
  | OtherError (message : jsstring).

(** A computation that returns or throws; for an [async] function, a promise
    that is fulfilled or rejected.  The model runs each [await] to its end
    before going on: no other handler is interleaved. *)
Definition Completion (A : Type) : Type := Exception + A.

Definition ret {A} (a : A) : Completion A := inr a.
Definition throw {A} (e : Exception) : Completion A := inl e.
Definition bind {A B} (m : Completion A) (k : A -> Completion B) : Completion B :=
  match m with
  | inl e => inl e
  | inr a => k a
  end.

Notation "'let*' x := m 'in' k" := (bind m (fun x => k))
  (at level 10, x name, m at level 200, k at level 200).

(** [!v] is [negb (truthy v)]. *)
Definition truthy (v : JSValue) : bool :=
  match v with
  | JUndefined | JNull => false
  | JBool b => b
  | JNumber nonzero _ => nonzero
  | JString s => match s with [] => false | _ :: _ => true end
  | JArray _ | JObject _ => true
  end.

Fixpoint ownProperty (properties : list (jsstring * JSValue)) (name : jsstring) : JSValue :=
  match properties with
  | [] => JUndefined
  | (k, v) :: rest => if bool_decide (k = name) then v else ownProperty rest name
  end.

(** [v.name] for the names read here ([choices], [message], [content],
    [reading], [meaning]), none of which is inherited from a prototype:
    reading a property of [undefined] or [null] throws, an object gives its
    own property, any other value gives [undefined]. *)
Definition getProperty (v : JSValue) (name : jsstring) : Completion JSValue :=
  match v with
  | JUndefined | JNull => throw TypeError
  | JObject properties => ret (ownProperty properties name)
  | _ => ret JUndefined
  end.

(** [v[0]]. *)
Definition getFirst (v : JSValue) : Completion JSValue :=
  match v with
  | JUndefined | JNull => throw TypeError
  | JArray (x :: _) => ret x
  | JString (c :: _) => ret (JString [c])
  | JObject properties => ret (ownProperty properties (lit "0"))
  | _ => ret JUndefined
  end.

(** The string conversion of template literals and of the argument of
    [JSON.parse]. *)
Fixpoint ToString (v : JSValue) : jsstring :=
  match v with
  | JUndefined => lit "undefined"
  | JNull => lit "null"
  | JBool true => lit "true"
  | JBool false => lit "false"
  | JNumber _ shown => shown
  | JString s => s
  | JArray elements =>
      let element e :=
        match e with
        | JUndefined | JNull => []
        | _ => ToString e
        end in
      (fix join (l : list JSValue) : jsstring :=
         match l with
         | [] => []
         | [e] => element e
         | e :: rest => element e ++ lit "," ++ join rest
         end) elements
  | JObject _ => lit "[object Object]"
  end.

(** [String.prototype.trim]: white space and line terminators. *)
Definition isWhiteSpace (c : Z) : bool :=
  bool_decide (c ∈ [9; 10; 11; 12; 13; 32; 0xA0; 0x1680; 0x2028; 0x2029;
                    0x202F; 0x205F; 0x3000; 0xFEFF])
  || ((0x2000 <=? c) && (c <=? 0x200A)).

Fixpoint trimStart (s : jsstring) : jsstring :=
  match s with
  | [] => []
  | c :: rest => if isWhiteSpace c then trimStart rest else s
  end.

Definition trim (s : jsstring) : jsstring :=
  rev (trimStart (rev (trimStart s))).

(** *** The application state *)

(** The part of [fetch]'s response that is read; [json] is the outcome of
    [response.json()]. *)
Record Response := {
  ok : bool;
  status : Z;
  statusText : jsstring;
  json : Completion JSValue
}.

(** The fields of the application and of its document that the resolver and
    the popup read or write; [requests] counts the calls of [fetch] made by
    [getWordDefinition]. *)
Record App := {
  fallbackDefinitions : gmap jsstring JSValue;
  requests : nat;
  apiKeyInput : jsstring;
  popupWord : jsstring;
  popupMeaning : jsstring;
  popupHidden : bool;
  popupStyle : option Popup.Style;
  currentWord : option jsstring;
  alerts : list jsstring
}.

Definition setDefinition (word : jsstring) (definition : JSValue) (app : App) : App :=
  {| fallbackDefinitions := <[word := definition]> (fallbackDefinitions app);
     requests := requests app;
     apiKeyInput := apiKeyInput app;
     popupWord := popupWord app;
     popupMeaning := popupMeaning app;
     popupHidden := popupHidden app;
     popupStyle := popupStyle app;
     currentWord := currentWord app;
     alerts := alerts app |}.

Definition countRequest (app : App) : App :=
  {| fallbackDefinitions := fallbackDefinitions app;
     requests := S (requests app);
     apiKeyInput := apiKeyInput app;
     popupWord := popupWord app;
     popupMeaning := popupMeaning app;
     popupHidden := popupHidden app;
     popupStyle := popupStyle app;
     currentWord := currentWord app;
     alerts := alerts app |}.

Definition alert (message : jsstring) (app : App) : App :=
  {| fallbackDefinitions := fallbackDefinitions app;
     requests := requests app;
     apiKeyInput := apiKeyInput app;
     popupWord := popupWord app;
     popupMeaning := popupMeaning app;
     popupHidden := popupHidden app;
     popupStyle := popupStyle app;
     currentWord := currentWord app;
     alerts := alerts app ++ [message] |}.

(** Fill the popup, show it and position it. *)
Definition showPopup (word meaning : jsstring) (style : Popup.Style) (app : App) : App :=
  {| fallbackDefinitions := fallbackDefinitions app;
     requests := requests app;
     apiKeyInput := apiKeyInput app;
     popupWord := word;
     popupMeaning := meaning;
     popupHidden := false;
     popupStyle := Some style;
     currentWord := currentWord app;
     alerts := alerts app |}.

Definition setCurrentWord (word : jsstring) (app : App) : App :=
  {| fallbackDefinitions := fallbackDefinitions app;
     requests := requests app;
     apiKeyInput := apiKeyInput app;
     popupWord := popupWord app;
     popupMeaning := popupMeaning app;
     popupHidden := popupHidden app;
     popupStyle := popupStyle app;
     currentWord := Some word;
     alerts := alerts app |}.

(** The value returned by the [catch] branch:
    [{ reading: "?", meaning: "Definition unavailable" }]. *)
Definition unavailable : JSValue :=
  JObject [ (lit "reading", JString (lit "?"));
            (lit "meaning", JString (lit "Definition unavailable")) ].

(** 📚 is U+1F4DA, a surrogate pair. *)
Definition loadingMarkup : jsstring :=
  lit "<div>" ++ [0xD83D; 0xDCDA] ++ lit " Looking up definition...</div>".

(** The template literal assigned to [popupMeaning.innerHTML]. *)
Definition definitionMarkup (reading meaning : JSValue) : jsstring :=
  [NEWLINE] ++ lit "            <div><strong>Reading:</strong> "
  ++ ToString reading ++ lit "</div>"
  ++ [NEWLINE] ++ lit "            <div><strong>Meaning:</strong> "
  ++ ToString meaning ++ lit "</div>"
  ++ [NEWLINE] ++ lit "        ".

(** The event handed to [showWordPopup]: [event.target.dataset.word] and the
    pointer data. *)
Record WordEvent := {
  dataset_word : jsstring;
  pointer : Popup.Event
}.

Section Environment.

(** The network: the outcome of the [n]-th call of [fetch] made by the
    resolver, for the word and the key put in the request (the rest of the
    request is fixed).  [inl] is a rejected promise. *)
Variable fetch : nat -> jsstring -> jsstring -> Completion Response.

(** The built-in [JSON.parse]. *)
Variable JSON_parse : jsstring -> Completion JSValue.

(** The browser: the window, and the size the popup is laid out with for a
    given word and content. *)
Variable window : Popup.Window.
Variable getBoundingClientRect : jsstring -> jsstring -> Popup.Rect.

(** The body of the [try] block of [getWordDefinition], up to the parsed
    content. *)
Definition lookup (n : nat) (word apiKey : jsstring) : Completion JSValue :=
  let* response := fetch n word apiKey in
  if negb (ok response)
  then throw (HttpError (status response) (statusText response))
  else
    let* data := json response in
    let* choices := getProperty data (lit "choices") in
    let* choice := getFirst choices in
    let* message := getProperty choice (lit "message") in
    let* content := getProperty message (lit "content") in
    JSON_parse (ToString content).

Definition getWordDefinition (word apiKey : jsstring) (app : App)
    : Completion JSValue * App :=
  match fallbackDefinitions app !! word with
  | Some cached => (ret cached, app)
  | None =>
      match lookup (requests app) word apiKey with
      | inr parsedContent =>
          (ret parsedContent, setDefinition word parsedContent (countRequest app))
      | inl error =>
          (ret unavailable, countRequest app)
      end
  end.

(** [positionPopup(event, popup)] on the popup as it is filled.  The
    callback of [requestAnimationFrame] is run at once, on the size the popup
    has with that content. *)
Definition position (event : WordEvent) (word meaning : jsstring) : Popup.Style :=
  Popup.positionPopup window (pointer event) (getBoundingClientRect word meaning).

(** The end of [showWordPopup], from [if (!definition) return;] on. *)
Definition showDefinition (event : WordEvent) (word : jsstring)
    (definition : JSValue) (app : App) : Completion unit * App :=
  if negb (truthy definition) then (ret tt, app)
  else
    match
      let* reading := getProperty definition (lit "reading") in
      let* meaning := getProperty definition (lit "meaning") in
      ret (definitionMarkup reading meaning)
    with
    | inl e => (throw e, app)
    | inr markup =>
        (ret tt,
         setCurrentWord word
           (showPopup word markup (position event word markup) app))
    end.

Definition showWordPopup (event : WordEvent) (app : App) : Completion unit * App :=
  let word := dataset_word event in
  let definition := default JUndefined (fallbackDefinitions app !! word) in
  if negb (truthy definition) then
    let apiKey := trim (apiKeyInput app) in
    match apiKey with
    | [] => (ret tt, alert (lit "API key needed to look up word definitions") app)
    | _ :: _ =>
        let app :=
          showPopup word loadingMarkup (position event word loadingMarkup) app in
        match getWordDefinition word apiKey app with
        | (inl e, app) => (throw e, app)
        | (inr definition, app) => showDefinition event word definition app
        end
    end
  else showDefinition event word definition app.

End Environment.

End Resolver.

(** *** The ways a lookup throws *)

Module Failures.

Import Resolver.

(** [data.choices[0].message.content]. *)
Definition contentOf (data : JSValue) : Completion JSValue :=
  let* choices := getProperty data (lit "choices") in
  let* choice := getFirst choices in
  let* message := getProperty choice (lit "message") in
  getProperty message (lit "content").

Section Environment.

Variable fetch : nat -> jsstring -> jsstring -> Completion Response.
Variable JSON_parse : jsstring -> Completion JSValue.

(** The five places where the [try] block of [getWordDefinition] can throw,
    with the exception thrown: [fetch] rejects; the status is not ok; the
    body is not JSON; the content cannot be read from the data; the content
    is not JSON. *)
Inductive Thrown (n : nat) (word apiKey : jsstring) : Exception -> Prop :=
  | NetworkError (e : Exception) :
      fetch n word apiKey = inl e ->
      Thrown n word apiKey e
  | BadStatus (response : Response) :
      fetch n word apiKey = inr response ->
      ok response = false ->
      Thrown n word apiKey (HttpError (status response) (statusText response))
  | BodyNotJson (response : Response) (e : Exception) :
      fetch n word apiKey = inr response ->
      ok response = true ->
      json response = inl e ->
      Thrown n word apiKey e
  | ContentUnreadable (response : Response) (data : JSValue) (e : Exception) :
      fetch n word apiKey = inr response ->
      ok response = true ->
      json response = inr data ->
      contentOf data = inl e ->
      Thrown n word apiKey e
  | ContentNotJson (response : Response) (data content : JSValue) (e : Exception) :
      fetch n word apiKey = inr response ->
      ok response = true ->
      json response = inr data ->
      contentOf data = inr content ->
      JSON_parse (ToString content) = inl e ->
      Thrown n word apiKey e.

(** The one way it does not: the content of an ok reply parses, to whatever
    value. *)
Definition Parsed (n : nat) (word apiKey : jsstring) (parsedContent : JSValue) : Prop :=
  exists response data content,
    fetch n word apiKey = inr response
    /\ ok response = true
    /\ json response = inr data
    /\ contentOf data = inr content
    /\ JSON_parse (ToString content) = inr parsedContent.

End Environment.

End Failures.

From Stdlib Require Import Sorted DecimalString.

(** The order [sort((a, b) => b.length - a.length)] asks for. *)
Definition longerFirst (a b : jsstring) : Prop := (length b <= length a)%nat.

(** ** The character data of markup *)

Module Markup.

(** The character data of markup made of text and of tags: the characters
    outside the tags, with a newline for each [<br>]; character references
    are left as they are written.  [tag] holds the characters read since the
    [<] of an open tag.  The result is [None] for markup whose angle brackets
    do not pair up or whose tags hold a newline. *)
Fixpoint characterData (tag : option jsstring) (markup : jsstring) : option jsstring :=
  match markup with
  | [] => match tag with None => Some [] | Some _ => None end
  | c :: rest =>
      match tag with
      | None =>
          if c =? LT then characterData (Some []) rest
          else if c =? GT then None
          else option_map (cons c) (characterData None rest)
      | Some name =>
          if c =? GT then
            if bool_decide (name = lit "br")
            then option_map (cons NEWLINE) (characterData None rest)
            else characterData None rest
          else if (c =? LT) || (c =? NEWLINE) then None
          else characterData (Some (name ++ [c])) rest
      end
  end.

(** A character of plain text: no angle bracket. *)
Definition plain (c : Z) : bool := negb (c =? LT) && negb (c =? GT).

End Markup.

(** ** The rest of the page: settings, story generation, language toggle, copy *)

Module Session.

Import Resolver.

(** [String.prototype.includes]. *)
Fixpoint includesText (needle hay : jsstring) : bool :=
  match hay with
  | [] => match needle with [] => true | _ :: _ => false end
  | _ :: rest =>
      match stripPrefix needle hay with
      | Some _ => true
      | None => includesText needle rest
      end
  end.

(** The string form of an integer, as in [`${response.status}`]. *)
Definition decimal (n : Z) : jsstring := lit (NilZero.string_of_int (Z.to_int n)).

(** The elements written by [generateStory], [displayStories], [showLoading]
    and the language toggle.  A [Hidden] field tells whether the class list
    of the element holds [hidden]; [japaneseTextClass] whether the one of the
    Japanese story holds [japanese-text]. *)
Record StoryView := {
  generateBtnDisabled : bool;
  loadingText : jsstring;
  loadingHidden : bool;
  storySectionHidden : bool;
  japaneseStory : jsstring;
  japaneseStoryHidden : bool;
  japaneseTextClass : bool;
  englishStory : jsstring;
  englishStoryHidden : bool;
  toggleBtnText : jsstring;
  toggleBtnHidden : bool;
  currentLanguage : jsstring
}.

(** The application with its document, its [localStorage] and the system
    clipboard.  [app] holds the fields of the resolver and the popup;
    [storyRequests] counts the calls of [fetch] made by
    [callOpenAIService]; [timers] holds, oldest first, the label each pending
    [setTimeout] callback of [copyToClipboard] will restore. *)
Record Page := {
  app : App;
  promptInput : jsstring;
  localStorage : gmap jsstring jsstring;
  view : StoryView;
  wordDefinitions : gmap jsstring JSValue;
  storyRequests : nat;
  copyBtnText : jsstring;
  copyBtnBackground : jsstring;
  clipboard : jsstring;
  timers : list jsstring
}.

Definition setApiKeyInput (value : jsstring) (a : App) : App :=
  {| fallbackDefinitions := fallbackDefinitions a;
     requests := requests a;
     apiKeyInput := value;
     popupWord := popupWord a;
     popupMeaning := popupMeaning a;
     popupHidden := popupHidden a;
     popupStyle := popupStyle a;
     currentWord := currentWord a;
     alerts := alerts a |}.

Definition setPopupHidden (hidden : bool) (a : App) : App :=
  {| fallbackDefinitions := fallbackDefinitions a;
     requests := requests a;
     apiKeyInput := apiKeyInput a;
     popupWord := popupWord a;
     popupMeaning := popupMeaning a;
     popupHidden := hidden;
     popupStyle := popupStyle a;
     currentWord := currentWord a;
     alerts := alerts a |}.

Definition withApp (a : App) (page : Page) : Page :=
  {| app := a;
     promptInput := promptInput page;
     localStorage := localStorage page;
     view := view page;
     wordDefinitions := wordDefinitions page;
     storyRequests := storyRequests page;
     copyBtnText := copyBtnText page;
     copyBtnBackground := copyBtnBackground page;
     clipboard := clipboard page;
     timers := timers page |}.

Definition withPromptInput (value : jsstring) (page : Page) : Page :=
  {| app := app page;
     promptInput := value;
     localStorage := localStorage page;
     view := view page;
     wordDefinitions := wordDefinitions page;
     storyRequests := storyRequests page;
     copyBtnText := copyBtnText page;
     copyBtnBackground := copyBtnBackground page;
     clipboard := clipboard page;
     timers := timers page |}.

Definition withLocalStorage (storage : gmap jsstring jsstring) (page : Page) : Page :=
  {| app := app page;
     promptInput := promptInput page;
     localStorage := storage;
     view := view page;
     wordDefinitions := wordDefinitions page;
     storyRequests := storyRequests page;
     copyBtnText := copyBtnText page;
     copyBtnBackground := copyBtnBackground page;
     clipboard := clipboard page;
     timers := timers page |}.

Definition withView (v : StoryView) (page : Page) : Page :=
  {| app := app page;
     promptInput := promptInput page;
     localStorage := localStorage page;
     view := v;
     wordDefinitions := wordDefinitions page;
     storyRequests := storyRequests page;
     copyBtnText := copyBtnText page;
     copyBtnBackground := copyBtnBackground page;
     clipboard := clipboard page;
     timers := timers page |}.

Definition withWordDefinitions (definitions : gmap jsstring JSValue) (page : Page) : Page :=
  {| app := app page;
     promptInput := promptInput page;
     localStorage := localStorage page;
     view := view page;
     wordDefinitions := definitions;
     storyRequests := storyRequests page;
     copyBtnText := copyBtnText page;
     copyBtnBackground := copyBtnBackground page;
     clipboard := clipboard page;
     timers := timers page |}.

Definition countStoryRequest  (page : Page) : Page :=
  {| app := app page;
     promptInput := promptInput page;
     localStorage := localStorage page;
     view := view page;
     wordDefinitions := wordDefinitions page;
     storyRequests := S (storyRequests page);
     copyBtnText := copyBtnText page;
     copyBtnBackground := copyBtnBackground page;
     clipboard := clipboard page;
     timers := timers page |}.

Definition withCopyBtn (text background : jsstring) (page : Page) : Page :=
  {| app := app page;
     promptInput := promptInput page;
     localStorage := localStorage page;
     view := view page;
     wordDefinitions := wordDefinitions page;
     storyRequests := storyRequests page;
     copyBtnText := text;
     copyBtnBackground := background;
     clipboard := clipboard page;
     timers := timers page |}.

Definition withClipboard (text : jsstring) (page : Page) : Page :=
  {| app := app page;
     promptInput := promptInput page;
     localStorage := localStorage page;
     view := view page;
     wordDefinitions := wordDefinitions page;
     storyRequests := storyRequests page;
     copyBtnText := copyBtnText page;
     copyBtnBackground := copyBtnBackground page;
     clipboard := text;
     timers := timers page |}.

Definition withTimers (pending : list jsstring) (page : Page) : Page :=
  {| app := app page;
     promptInput := promptInput page;
     localStorage := localStorage page;
     view := view page;
     wordDefinitions := wordDefinitions page;
     storyRequests := storyRequests page;
     copyBtnText := copyBtnText page;
     copyBtnBackground := copyBtnBackground page;
     clipboard := clipboard page;
     timers := pending |}.

Definition alertPage (message : jsstring) (page : Page) : Page :=
  withApp (alert message (app page)) page.

(** *** Saved settings *)

Definition API_KEY : jsstring := lit "openai_api_key".
Definition PROMPT : jsstring := lit "story_prompt".

(** [if (savedKey)]: the item exists and is not the empty string.  The value
    is kept as it is assigned. *)
Definition loadApiKey (page : Page) : Page :=
  match localStorage page !! API_KEY with
  | Some (c :: savedKey) => withApp (setApiKeyInput (c :: savedKey) (app page)) page
  | _ => page
  end.

Definition saveApiKey (page : Page) : Page :=
  withLocalStorage (<[API_KEY := apiKeyInput (app page)]> (localStorage page)) page.

Definition loadPrompt (page : Page) : Page :=
  match localStorage page !! PROMPT with
  | Some (c :: savedPrompt) => withPromptInput (c :: savedPrompt) page
  | _ => page
  end.

Definition savePrompt (page : Page) : Page :=
  withLocalStorage (<[PROMPT := promptInput page]> (localStorage page)) page.

(** *** Loading indicator and language toggle *)

Definition GENERATING : jsstring := lit "Generating your story...".
Definition JAPANESE : jsstring := lit "japanese".
Definition ENGLISH : jsstring := lit "english".

Definition showLoading (show : bool) (message : jsstring) (v : StoryView) : StoryView :=
  if show then
    {| generateBtnDisabled := generateBtnDisabled v;
       loadingText := message;
       loadingHidden := false;
       storySectionHidden := true;
       japaneseStory := japaneseStory v;
       japaneseStoryHidden := japaneseStoryHidden v;
       japaneseTextClass := japaneseTextClass v;
       englishStory := englishStory v;
       englishStoryHidden := englishStoryHidden v;
       toggleBtnText := toggleBtnText v;
       toggleBtnHidden := toggleBtnHidden v;
       currentLanguage := currentLanguage v |}
  else
    {| generateBtnDisabled := generateBtnDisabled v;
       loadingText := loadingText v;
       loadingHidden := true;
       storySectionHidden := storySectionHidden v;
       japaneseStory := japaneseStory v;
       japaneseStoryHidden := japaneseStoryHidden v;
       japaneseTextClass := japaneseTextClass v;
       englishStory := englishStory v;
       englishStoryHidden := englishStoryHidden v;
       toggleBtnText := toggleBtnText v;
       toggleBtnHidden := toggleBtnHidden v;
       currentLanguage := currentLanguage v |}.

(** The listeners [bindWordClickEvents] puts on the words are no part of the
    state. *)
Definition updateLanguageDisplay (v : StoryView) : StoryView :=
  if bool_decide (currentLanguage v = JAPANESE) then
    {| generateBtnDisabled := generateBtnDisabled v;
       loadingText := loadingText v;
       loadingHidden := loadingHidden v;
       storySectionHidden := storySectionHidden v;
       japaneseStory := japaneseStory v;
       japaneseStoryHidden := false;
       japaneseTextClass := japaneseTextClass v;
       englishStory := englishStory v;
       englishStoryHidden := true;
       toggleBtnText := lit "Show English";
       toggleBtnHidden := toggleBtnHidden v;
       currentLanguage := currentLanguage v |}
  else
    {| generateBtnDisabled := generateBtnDisabled v;
       loadingText := loadingText v;
       loadingHidden := loadingHidden v;
       storySectionHidden := storySectionHidden v;
       japaneseStory := japaneseStory v;
       japaneseStoryHidden := true;
       japaneseTextClass := japaneseTextClass v;
       englishStory := englishStory v;
       englishStoryHidden := false;
       toggleBtnText := lit "Show Japanese";
       toggleBtnHidden := toggleBtnHidden v;
       currentLanguage := currentLanguage v |}.

Definition setCurrentLanguage (language : jsstring) (v : StoryView) : StoryView :=
  {| generateBtnDisabled := generateBtnDisabled v;
     loadingText := loadingText v;
     loadingHidden := loadingHidden v;
     storySectionHidden := storySectionHidden v;
     japaneseStory := japaneseStory v;
     japaneseStoryHidden := japaneseStoryHidden v;
     japaneseTextClass := japaneseTextClass v;
     englishStory := englishStory v;
     englishStoryHidden := englishStoryHidden v;
     toggleBtnText := toggleBtnText v;
     toggleBtnHidden := toggleBtnHidden v;
     currentLanguage := language |}.

Definition toggleLanguage (v : StoryView) : StoryView :=
  updateLanguageDisplay
    (setCurrentLanguage
       (if bool_decide (currentLanguage v = JAPANESE) then ENGLISH else JAPANESE) v).

Definition setGenerateBtnDisabled (disabled : bool) (v : StoryView) : StoryView :=
  {| generateBtnDisabled := disabled;
     loadingText := loadingText v;
     loadingHidden := loadingHidden v;
     storySectionHidden := storySectionHidden v;
     japaneseStory := japaneseStory v;
     japaneseStoryHidden := japaneseStoryHidden v;
     japaneseTextClass := japaneseTextClass v;
     englishStory := englishStory v;
     englishStoryHidden := englishStoryHidden v;
     toggleBtnText := toggleBtnText v;
     toggleBtnHidden := toggleBtnHidden v;
     currentLanguage := currentLanguage v |}.

Definition setJapaneseStory (markup : jsstring) (v : StoryView) : StoryView :=
  {| generateBtnDisabled := generateBtnDisabled v;
     loadingText := loadingText v;
     loadingHidden := loadingHidden v;
     storySectionHidden := storySectionHidden v;
     japaneseStory := markup;
     japaneseStoryHidden := japaneseStoryHidden v;
     japaneseTextClass := japaneseTextClass v;
     englishStory := englishStory v;
     englishStoryHidden := englishStoryHidden v;
     toggleBtnText := toggleBtnText v;
     toggleBtnHidden := toggleBtnHidden v;
     currentLanguage := currentLanguage v |}.

(** The writes of [displayStories] after the Japanese story. *)
Definition setEnglishStory (markup : jsstring) (v : StoryView) : StoryView :=
  {| generateBtnDisabled := generateBtnDisabled v;
     loadingText := loadingText v;
     loadingHidden := loadingHidden v;
     storySectionHidden := storySectionHidden v;
     japaneseStory := japaneseStory v;
     japaneseStoryHidden := japaneseStoryHidden v;
     japaneseTextClass := true;
     englishStory := markup;
     englishStoryHidden := englishStoryHidden v;
     toggleBtnText := toggleBtnText v;
     toggleBtnHidden := toggleBtnHidden v;
     currentLanguage := JAPANESE |}.

(** [storySection] and [toggleBtn] lose their [hidden] class. *)
Definition revealStory  (v : StoryView) : StoryView :=
  {| generateBtnDisabled := generateBtnDisabled v;
     loadingText := loadingText v;
     loadingHidden := loadingHidden v;
     storySectionHidden := false;
     japaneseStory := japaneseStory v;
     japaneseStoryHidden := japaneseStoryHidden v;
     japaneseTextClass := japaneseTextClass v;
     englishStory := englishStory v;
     englishStoryHidden := englishStoryHidden v;
     toggleBtnText := toggleBtnText v;
     toggleBtnHidden := false;
     currentLanguage := currentLanguage v |}.

(** *** The constructor *)

(** The fields of the resolver on a new object: the map is new and no word
    is current. *)
Definition newApp (a : App) : App :=
  {| fallbackDefinitions := ∅;
     requests := requests a;
     apiKeyInput := apiKeyInput a;
     popupWord := popupWord a;
     popupMeaning := popupMeaning a;
     popupHidden := popupHidden a;
     popupStyle := popupStyle a;
     currentWord := None;
     alerts := alerts a |}.

(** [new JapaneseStudyApp()] on a document as it is loaded:
    [initializeElements] fills the two fields from the storage, then the
    fields of the object are set. *)
Definition construct (document : Page) : Page :=
  let page := loadPrompt (loadApiKey document) in
  withWordDefinitions ∅
    (withView (setCurrentLanguage JAPANESE (view page))
       (withApp (newApp (app page)) page)).

(** *** Story generation *)

(** The value [callOpenAIService] returns. *)
Record Stories := {
  japanese : JSValue;
  english : JSValue;
  stories_wordDefinitions : gmap jsstring JSValue
}.

(** [makeWordsClickable] on any value: [exec] takes the string form of its
    argument, but [replace] exists on strings only, and is called at the
    latest on the way out. *)
Definition makeWordsClickableValue (text : JSValue) : Completion jsstring :=
  match text with
  | JString s => ret (makeWordsClickable s)
  | _ => throw TypeError
  end.

(** [stories.english.replace(/\n/g, "<br>")]. *)
Definition breakLines (text : JSValue) : Completion jsstring :=
  match text with
  | JString s => ret (nl2br s)
  | _ => throw TypeError
  end.

Definition displayStories (stories : Stories) (page : Page) : Completion unit * Page :=
  let page := withWordDefinitions (stories_wordDefinitions stories) page in
  match makeWordsClickableValue (japanese stories) with
  | inl e => (throw e, page)
  | inr markup =>
      let page := withView (setJapaneseStory markup (view page)) page in
      match breakLines (english stories) with
      | inl e => (throw e, page)
      | inr translation =>
          (ret tt,
           withView (updateLanguageDisplay (setEnglishStory translation (view page)))
             page)
      end
  end.

Definition INVALID_KEY : jsstring :=
  lit "Invalid API key. Please check your OpenAI API key.".
Definition RATE_LIMIT : jsstring :=
  lit "API rate limit exceeded. Please wait and try again.".
Definition NETWORK : jsstring :=
  lit "Network error. Please check your connection.".
Definition TRY_AGAIN : jsstring :=
  lit "Error generating story. Please try again.".
Definition INVALID_FORMAT : jsstring :=
  lit "Invalid response format from AI service".

Section Environment.

(** The outcome of the [n]-th call of [fetch] made by [callOpenAIService],
    for the prompt and the key put in the request. *)
Variable fetchStory : nat -> jsstring -> jsstring -> Completion Response.

Variable JSON_parse : jsstring -> Completion JSValue.

(** The [message] of the errors that the engine and the browser make
    ([TypeError], [SyntaxError]); it depends on them. *)
Variable engineMessage : Exception -> jsstring.

(** [navigator.clipboard.writeText(text)]: fulfilled when the clipboard has
    taken the text.  [execCommandCopy text] tells whether
    [document.execCommand("copy")] copies the selected text. *)
Variable writeText : jsstring -> Completion unit.
Variable execCommandCopy : jsstring -> bool.

Definition message (error : Exception) : jsstring :=
  match error with
  | HttpError status statusText =>
      lit "HTTP " ++ decimal status ++ lit ": " ++ statusText
  | OtherError text => text
  | _ => engineMessage error
  end.

(** The body of the [catch] of [generateStory], up to the [alert]. *)
Definition errorMessage (error : Exception) : jsstring :=
  if includesText (lit "401") (message error) then INVALID_KEY
  else if includesText (lit "429") (message error) then RATE_LIMIT
  else if includesText (lit "network") (message error) then NETWORK
  else TRY_AGAIN.

Definition callOpenAIService (n : nat) (prompt apiKey : jsstring) : Completion Stories :=
  let* response := fetchStory n prompt apiKey in
  if negb (ok response)
  then throw (HttpError (status response) (statusText response))
  else
    let* data := json response in
    let* choices := getProperty data (lit "choices") in
    let* choice := getFirst choices in
    let* message := getProperty choice (lit "message") in
    let* content := getProperty message (lit "content") in
    match
      let* parsedContent := JSON_parse (ToString content) in
      let* japanese := getProperty parsedContent (lit "japanese") in
      let* english := getProperty parsedContent (lit "english") in
      ret {| japanese := japanese; english := english;
             stories_wordDefinitions := ∅ |}
    with
    | inr stories => ret stories
    | inl parseError => throw (OtherError INVALID_FORMAT)
    end.

(** The [try] block of [generateStory]. *)
Definition tryGenerate (prompt apiKey : jsstring) (page : Page) : Completion unit * Page :=
  match callOpenAIService (storyRequests page) prompt apiKey with
  | inl e => (throw e, countStoryRequest page)
  | inr stories =>
      match displayStories stories (countStoryRequest page) with
      | (inl e, page) => (throw e, page)
      | (inr _, page) => (ret tt, withView (revealStory (view page)) page)
      end
  end.

Definition generateStory (page : Page) : Completion unit * Page :=
  let prompt := trim (promptInput page) in
  let apiKey := trim (apiKeyInput (app page)) in
  match apiKey, prompt with
  | [], _ => (ret tt, alertPage (lit "Please enter your OpenAI API key") page)
  | _ :: _, [] => (ret tt, alertPage (lit "Please enter a story prompt") page)
  | _ :: _, _ :: _ =>
      let page := withView (showLoading true GENERATING (view page)) page in
      let page := withView (setGenerateBtnDisabled true (view page)) page in
      let page :=
        match tryGenerate prompt apiKey page with
        | (inl error, page) => alertPage (errorMessage error) page
        | (inr _, page) => page
        end in
      let page := withView (showLoading false GENERATING (view page)) page in
      let page := withView (setGenerateBtnDisabled false (view page)) page in
      (ret tt, page)
  end.

(** *** Copy *)

(** ✓ is U+2713. *)
Definition COPIED : jsstring := [0x2713] ++ lit " Copied!".
Definition GREEN : jsstring := lit "#28a745".

(** [`${this.currentWord} (${definition.reading}): ${definition.meaning}`]. *)
Definition textToCopy (word : jsstring) (definition : JSValue) : Completion jsstring :=
  let* reading := getProperty definition (lit "reading") in
  let* meaning := getProperty definition (lit "meaning") in
  ret (word ++ lit " (" ++ ToString reading ++ lit "): " ++ ToString meaning).

(** [currentWord] is [undefined] until a popup has shown a definition; no
    entry of the cache has that key. *)
Definition copyToClipboard (page : Page) : Completion unit * Page :=
  match currentWord (app page) with
  | None => (ret tt, page)
  | Some word =>
      let definition := default JUndefined (fallbackDefinitions (app page) !! word) in
      if negb (truthy definition) then (ret tt, page)
      else
        match textToCopy word definition with
        | inl e => (throw e, page)
        | inr text =>
            match writeText text with
            | inr _ =>
                let originalText := copyBtnText page in
                (ret tt,
                 withTimers (timers page ++ [originalText])
                   (withCopyBtn COPIED GREEN (withClipboard text page)))
            | inl err =>
                (ret tt, if execCommandCopy text then withClipboard text page else page)
            end
        end
  end.

End Environment.

(** The callback [copyToClipboard] hands to [setTimeout], run for the oldest
    pending timer. *)
Definition fireTimer (page : Page) : Page :=
  match timers page with
  | [] => page
  | originalText :: pending => withTimers pending (withCopyBtn originalText GREEN page)
  end.

(** *** Closing the popup *)

Definition hidePopup (page : Page) : Page :=
  withApp (setPopupHidden true (app page)) page.

(** [insidePopup] is [wordPopup.contains(event.target)], [onWord] is
    [event.target.classList.contains("clickable-word")]. *)
Definition handleDocumentClick (insidePopup onWord : bool) (page : Page) : Page :=
  if negb insidePopup && negb onWord then hidePopup page else page.

End Session.
(** *** Sample texts *)

Module Samples.

(** 猫が好きです。 *)
Definition neko_ga_suki_desu : jsstring :=
  [0x732B; 0x304C; 0x597D; 0x304D; 0x3067; 0x3059; 0x3002].
Definition neko : jsstring := [0x732B].          (* 猫 *)
Definition suki : jsstring := [0x597D; 0x304D].  (* 好き *)
Definition kou : jsstring := [0x597D].           (* 好 *)
Definition tokyo : jsstring := [0x6771; 0x4EAC]. (* 東京 *)
Definition kyo : jsstring := [0x4EAC].           (* 京 *)
Definition tokyo_to : jsstring := [0x6771; 0x4EAC; 0x90FD]. (* 東京都 *)
(** 東京、京 *)
Definition tokyo_kyo : jsstring := [0x6771; 0x4EAC; 0x3001; 0x4EAC].
(** あかがきです *)
Definition hiragana_only : jsstring :=
  [0x3042; 0x304B; 0x304C; 0x304D; 0x3067; 0x3059].

End Samples.

Import Samples.

(** *** Sample environments for the resolver *)

Module Worlds.

Import Resolver.

(** No network: every [fetch] rejects. *)
Definition offline (n : nat) (word apiKey : jsstring) : Completion Response :=
  throw TypeError.

(** A service that answers every request with one fixed content string. *)
Definition answerContent : jsstring := lit "{...}".

Definition answer : JSValue :=
  JObject [ (lit "choices",
             JArray [ JObject [ (lit "message",
                                 JObject [ (lit "content", JString answerContent) ]) ] ]) ].

Definition online (n : nat) (word apiKey : jsstring) : Completion Response :=
  ret {| ok := true; status := 200; statusText := lit "OK"; json := ret answer |}.

(** A service that refuses every request. *)
Definition unauthorized (n : nat) (word apiKey : jsstring) : Completion Response :=
  ret {| ok := false; status := 401; statusText := lit "Unauthorized";
         json := ret JNull |}.

(** ねこ / cat *)
Definition nekoDefinition : JSValue :=
  JObject [ (lit "reading", JString [0x306D; 0x3053]);
            (lit "meaning", JString (lit "cat")) ].

(** [JSON.parse] as far as these worlds need it. *)
Definition parse (s : jsstring) : Completion JSValue :=
  if bool_decide (s = answerContent) then ret nekoDefinition else throw SyntaxError.

Definition window : Popup.Window :=
  {| Popup.scrollX := 0; Popup.scrollY := 0;
     Popup.innerWidth := 400; Popup.innerHeight := 800 |}.

Definition rect (word meaning : jsstring) : Popup.Rect :=
  {| Popup.width := 300; Popup.height := 100 |}.

Definition click : WordEvent :=
  {| dataset_word := neko; pointer := Popup.Click 390 50 |}.

(** A fresh application with a key typed in. *)
Definition fresh : App :=
  {| fallbackDefinitions := ∅;
     requests := 0;
     apiKeyInput := lit " sk-test ";
     popupWord := [];
     popupMeaning := [];
     popupHidden := true;
     popupStyle := None;
     currentWord := None;
     alerts := [] |}.

End Worlds.

(** *** Sample pages and services *)

Module Pages.

Import Resolver Session Worlds.

(** A key field that holds two spaces. *)
Definition keyless : App := setApiKeyInput (lit "  ") fresh.

(** The definition of 猫 is cached. *)
Definition learned : App := setDefinition neko nekoDefinition keyless.

(** [JSON.parse] of a content that reads [null]. *)
Definition parseNull (s : jsstring) : Completion JSValue := ret JNull.

(** A network that fails the first request and answers the later ones. *)
Definition flaky (n : nat) (word apiKey : jsstring) : Completion Response :=
  match n with
  | O => throw TypeError
  | S _ => online n word apiKey
  end.

Definition touch : WordEvent :=
  {| dataset_word := neko; pointer := Popup.TouchEnd 200 900 |}.

(** A page that shows an earlier story. *)
Definition shownView : StoryView :=
  {| generateBtnDisabled := false;
     loadingText := [];
     loadingHidden := true;
     storySectionHidden := false;
     japaneseStory := spanMarkup neko;
     japaneseStoryHidden := false;
     japaneseTextClass := true;
     englishStory := lit "cat";
     englishStoryHidden := true;
     toggleBtnText := lit "Show English";
     toggleBtnHidden := false;
     currentLanguage := JAPANESE |}.

Definition reader : Page :=
  {| app := fresh;
     promptInput := lit "a story about a cat";
     localStorage := ∅;
     view := shownView;
     wordDefinitions := ∅;
     storyRequests := 0;
     copyBtnText := lit "Copy";
     copyBtnBackground := lit "#007bff";
     clipboard := [];
     timers := [] |}.

(** The same page after a reload: empty fields, the storage as saved. *)
Definition reloaded : Page :=
  withLocalStorage (localStorage (savePrompt (saveApiKey reader)))
    (withPromptInput [] (withApp (setApiKeyInput [] fresh) reader)).

(** The popup shows the cached definition of 猫. *)
Definition studying : Page :=
  withApp (setCurrentWord neko learned) reader.

(** Story services. *)
Definition storyContent : jsstring := lit "{story}".
Definition halfContent : jsstring := lit "{half}".

Definition storyAnswer (content : jsstring) : JSValue :=
  JObject [ (lit "choices",
             JArray [ JObject [ (lit "message",
                                 JObject [ (lit "content", JString content) ]) ] ]) ].

Definition storyService (content : jsstring) (n : nat) (prompt apiKey : jsstring)
    : Completion Response :=
  ret {| ok := true; status := 200; statusText := lit "OK";
         json := ret (storyAnswer content) |}.

Definition storyRefused (code : Z) (text : jsstring) (n : nat) (prompt apiKey : jsstring)
    : Completion Response :=
  ret {| ok := false; status := code; statusText := text; json := ret JNull |}.

Definition storyOffline (n : nat) (prompt apiKey : jsstring) : Completion Response :=
  throw TypeError.

Definition parseStory (s : jsstring) : Completion JSValue :=
  if bool_decide (s = storyContent) then
    ret (JObject [ (lit "japanese", JString neko_ga_suki_desu);
                   (lit "english", JString (lit "I like cats.")) ])
  else if bool_decide (s = halfContent) then
    ret (JObject [ (lit "japanese", JString neko_ga_suki_desu) ])
  else throw SyntaxError.

Definition failedToFetch (e : Exception) : jsstring := lit "Failed to fetch".

(** Clipboards. *)
Definition clipboardGranted (text : jsstring) : Completion unit := ret tt.
Definition clipboardDenied (text : jsstring) : Completion unit := throw TypeError.
Definition fallbackWorks (text : jsstring) : bool := true.

End Pages.

(** ** Properties of the tokenizer *)

Section TokenizerFacts.

Lemma includes_true (l : list jsstring) (w : jsstring) :
  includes l w = true <-> w ∈ l.
Proof. unfold includes. apply bool_decide_eq_true. Qed.

Lemma includes_false (l : list jsstring) (w : jsstring) :
  includes l w = false <-> w ∉ l.
Proof. unfold includes. apply bool_decide_eq_false. Qed.

(** Every match is a non-empty run of class characters lying in the text;
    [pre] is what was read before the current run. *)
Lemma execAll_run (text run pre w : jsstring) :
  Forall (fun c => inClass c = true) run ->
  w ∈ execAll run text ->
  w <> [] /\ Forall (fun c => inClass c = true) w
  /\ exists p q, pre ++ run ++ text = p ++ w ++ q.
Proof.
  revert run pre. induction text as [|c rest IH]; intros run pre Hrun Hin.
  - destruct run as [|r run']; simpl in Hin.
    + apply elem_of_nil in Hin. contradiction.
    + apply list_elem_of_singleton in Hin. subst w.
      split; [discriminate|]. split; [exact Hrun|].
      exists pre, []. reflexivity.
  - simpl in Hin. destruct (inClass c) eqn:Hc.
    + destruct (IH (run ++ [c]) pre) as (Hne & Hcl & p & q & Heq); auto.
      { apply Forall_app. split; [exact Hrun|]. constructor; [exact Hc|constructor]. }
      split; [exact Hne|]. split; [exact Hcl|].
      exists p, q. rewrite <- Heq, <- !app_assoc. reflexivity.
    + destruct run as [|r run'].
      * destruct (IH [] (pre ++ [c])) as (Hne & Hcl & p & q & Heq); auto.
        split; [exact Hne|]. split; [exact Hcl|].
        exists p, q. rewrite <- Heq, <- !app_assoc. reflexivity.
      * apply elem_of_cons in Hin. destruct Hin as [->|Hin].
        -- split; [discriminate|]. split; [exact Hrun|].
           exists pre, (c :: rest). reflexivity.
        -- destruct (IH [] (pre ++ (r :: run') ++ [c])) as (Hne & Hcl & p & q & Heq); auto.
           split; [exact Hne|]. split; [exact Hcl|].
           exists p, q. rewrite <- Heq, <- !app_assoc. reflexivity.
Qed.

Lemma elem_of_setAdd (s : list jsstring) (a w : jsstring) :
  w ∈ setAdd s a -> w ∈ s \/ w = a.
Proof.
  unfold setAdd. destruct (includes s a); [auto|].
  intros Hin. apply elem_of_app in Hin. destruct Hin as [Hin|Hin]; [auto|].
  apply list_elem_of_singleton in Hin. auto.
Qed.

(** What the loop lets through: matches that pass the guard. *)
Lemma elem_of_candidates (l s : list jsstring) (w : jsstring) :
  w ∈ fold_left addCandidate l s ->
  w ∈ s \/ (w ∈ l /\ w ∉ particles).
Proof.
  revert s. induction l as [|a l IH]; intros s Hin; simpl in Hin; [auto|].
  apply IH in Hin. destruct Hin as [Hin|[Hin Hp]].
  - unfold addCandidate in Hin.
    destruct (includes particles a) eqn:Hpa; simpl in Hin.
    + auto.
    + destruct (1 <=? Z.of_nat (length a)); [|auto].
      apply elem_of_setAdd in Hin. destruct Hin as [Hin| ->]; [auto|].
      right. split; [apply elem_of_cons; auto|].
      apply includes_false. exact Hpa.
  - right. split; [apply elem_of_cons; auto|exact Hp].
Qed.

Lemma wordsToMakeClickable_inClass (text w : jsstring) :
  w ∈ wordsToMakeClickable text -> Forall (fun c => inClass c = true) w.
Proof.
  intros Hin. apply elem_of_candidates in Hin.
  destruct Hin as [Hin|[Hin _]]; [apply elem_of_nil in Hin; contradiction|].
  apply (execAll_run text [] [] w) in Hin; [tauto|constructor].
Qed.

(** No text without class characters has a match. *)
Lemma execAll_none (text : jsstring) :
  Forall (fun c => inClass c = false) text -> execAll [] text = [].
Proof.
  induction 1 as [|c rest Hc _ IH]; simpl; [reflexivity|].
  rewrite Hc. exact IH.
Qed.

(** The escaped pattern matches the word itself. *)
Lemma matchEscaped_escapeRegex (w s : jsstring) :
  matchEscaped (escapeRegex w) s = stripPrefix w s.
Proof.
  revert s. induction w as [|c w IH]; intros s; [reflexivity|].
  simpl. destruct (regexSpecial c) eqn:Hsp; simpl.
  - destruct s as [|b s]; [reflexivity|].
    destruct (c =? b); [apply IH|reflexivity].
  - assert ((c =? BACKSLASH) = false) as ->.
    { apply Z.eqb_neq. intros ->. vm_compute in Hsp. discriminate. }
    destruct s as [|b s]; [reflexivity|].
    destruct (c =? b); [apply IH|reflexivity].
Qed.

Lemma stripPrefix_app (w rest : jsstring) : stripPrefix w (w ++ rest) = Some rest.
Proof.
  induction w as [|c w IH]; [reflexivity|].
  simpl. rewrite Z.eqb_refl. exact IH.
Qed.

(** The exclusion rule at work.  Inside the opening tag written by
    [spanMarkup] the word is followed by the rest of the tag and is left
    alone; in the content of the element it is followed by [</span>] and is
    matched. *)
Lemma matchHere_in_attribute (w rest : jsstring) :
  matchHere (escapeRegex w)
    (w ++ [DQUOTE] ++ lit " data-source=" ++ [DQUOTE] ++ lit "dynamic" ++ [DQUOTE]
       ++ lit ">" ++ rest)
  = None.
Proof.
  unfold matchHere. destruct (tagAhead _); [reflexivity|].
  rewrite matchEscaped_escapeRegex, stripPrefix_app. reflexivity.
Qed.

Lemma matchHere_in_content (c : Z) (w rest : jsstring) :
  c <> LT ->
  matchHere (escapeRegex (c :: w)) ((c :: w) ++ spanClose ++ rest)
  = Some (spanClose ++ rest).
Proof.
  intros Hc. unfold matchHere.
  assert (tagAhead ((c :: w) ++ spanClose ++ rest) = false) as ->.
  { simpl. apply Z.eqb_neq in Hc. rewrite Hc. reflexivity. }
  rewrite matchEscaped_escapeRegex, stripPrefix_app. reflexivity.
Qed.

End TokenizerFacts.

(** ** Claims about makeWordsClickable *)

(** C3.  Every word the tokenizer keeps (an element of the set
    [wordsToMakeClickable]) is non-empty, is a contiguous piece of the input
    text, and is no member of [particles]. *)
Theorem tokenizer_spans_sound (text w : jsstring) :
  w ∈ wordsToMakeClickable text ->
  w <> [] /\ (exists pre post, text = pre ++ w ++ post) /\ w ∉ particles.
Proof.
  intros Hin. apply elem_of_candidates in Hin.
  destruct Hin as [Hin|[Hin Hp]]; [apply elem_of_nil in Hin; contradiction|].
  apply (execAll_run text [] [] w) in Hin; [|constructor].
  destruct Hin as (Hne & _ & p & q & Heq).
  split; [exact Hne|]. split; [|exact Hp].
  exists p, q. exact Heq.
Qed.

Lemma tokenizer_spans_sound_witness :
  kou <> [] /\ (exists pre post, neko_ga_suki_desu = pre ++ kou ++ post)
  /\ kou ∉ particles.
Proof.
  apply (tokenizer_spans_sound neko_ga_suki_desu kou).
  vm_compute. apply list_elem_of_In. simpl. auto.
Defined.

(** C10.  The hiragana range of the class starts at ひ (U+3072): the
    hiragana あ (U+3041) to ぱ (U+3071), among them あ か が き で す, are
    outside the class; and a text made only of characters outside the class
    gets no candidate word and comes back unchanged but for the conversion of
    newlines to line breaks. *)
Theorem no_class_character_no_span (text : jsstring) :
  Forall (fun c => inClass c = false) text ->
  (forall c, 0x3041 <= c <= 0x3071 -> inClass c = false)
  /\ Forall (fun c => inClass c = false) hiragana_only
  /\ wordsToMakeClickable text = []
  /\ makeWordsClickable text = nl2br text.
Proof.
  intros Hout. split; [|split; [|split]].
  - intros c Hc. unfold inClass.
    repeat (apply orb_false_intro); try (apply andb_false_iff); lia.
  - repeat constructor.
  - unfold wordsToMakeClickable, meaningfulWordRegex.
    rewrite execAll_none by exact Hout. reflexivity.
  - unfold makeWordsClickable, sortedWords, wordsToMakeClickable, meaningfulWordRegex.
    rewrite execAll_none by exact Hout. reflexivity.
Qed.

Lemma no_class_character_no_span_witness :
  (forall c, 0x3041 <= c <= 0x3071 -> inClass c = false)
  /\ Forall (fun c => inClass c = false) hiragana_only
  /\ wordsToMakeClickable (hiragana_only ++ [NEWLINE]) = []
  /\ makeWordsClickable (hiragana_only ++ [NEWLINE]) = nl2br (hiragana_only ++ [NEWLINE]).
Proof.
  apply (no_class_character_no_span (hiragana_only ++ [NEWLINE])).
  repeat constructor.
Defined.

(** C1 (as stated, refuted).  For 猫が好きです。 the interactive spans are not
    猫 and 好き. *)
Lemma neko_spans_not_suki :
  clickableWords (makeWordsClickable neko_ga_suki_desu) <> [neko; suki].
Proof. vm_compute. discriminate. Qed.

(** C1 (amended).  For 猫が好きです。 the pipeline keeps the candidates 猫 and
    好 and produces exactly two interactive spans, 猫 and 好, in that order;
    が, き, で, す and the full stop 。 stay outside every span (き, U+304D, is
    below the hiragana range of the class, so the second run ends after 好). *)
Theorem neko_spans :
  wordsToMakeClickable neko_ga_suki_desu = [neko; kou]
  /\ makeWordsClickable neko_ga_suki_desu
     = spanMarkup neko ++ [0x304C] ++ spanMarkup kou ++ [0x304D; 0x3067; 0x3059; 0x3002]
  /\ clickableWords (makeWordsClickable neko_ga_suki_desu) = [neko; kou].
Proof. repeat split; vm_compute; reflexivity. Qed.

(** C4 (the code at the failing input).  With the candidates 東京 and 京,
    longest first, and the text 東京都, the loop wraps 東京 and then wraps the
    京 inside that span again: the second lookahead only rejects a match that
    is followed by a [>] before any [<], which holds inside the opening tag
    (the [data-word] value) but not in the content of the element.  The same
    happens in [makeWordsClickable] itself on 東京、京. *)
Theorem shorter_candidate_wrapped_inside_longer :
  sortByLength [kyo; tokyo] = [tokyo; kyo]
  /\ wrapWords (sortByLength [kyo; tokyo]) tokyo_to
     = spanOpen tokyo ++ [0x6771] ++ spanMarkup kyo ++ spanClose ++ [0x90FD]
  /\ clickableWords (nl2br (wrapWords (sortByLength [kyo; tokyo]) tokyo_to))
     = [tokyo; kyo]
  /\ sortedWords tokyo_kyo = [tokyo; kyo]
  /\ makeWordsClickable tokyo_kyo
     = spanOpen tokyo ++ [0x6771] ++ spanMarkup kyo ++ spanClose
       ++ [0x3001] ++ spanMarkup kyo.
Proof. repeat split; vm_compute; reflexivity. Qed.

(** C5 (the code at the failing input).  Annotating 猫 gives one interactive
    tag; annotating that markup again wraps the content of the span a second
    time, so the output holds two. *)
Theorem second_pass_wraps_again :
  makeWordsClickable neko = spanMarkup neko
  /\ length (clickableWords (makeWordsClickable neko)) = 1%nat
  /\ makeWordsClickable (makeWordsClickable neko)
     = spanOpen neko ++ spanMarkup neko ++ spanClose
  /\ length (clickableWords (makeWordsClickable (makeWordsClickable neko))) = 2%nat.
Proof. repeat split; vm_compute; reflexivity. Qed.

(** ** Claims about positionPopup *)

Section PlacementFacts.

Import Popup.
Local Open Scope Q_scope.

Lemma gtb_true a b : gtb a b = true <-> b < a.
Proof.
  unfold gtb. rewrite negb_true_iff, <- not_true_iff_false, Qle_bool_iff.
  split; [apply Qnot_le_lt|apply Qlt_not_le].
Qed.

Lemma gtb_false a b : gtb a b = false <-> a <= b.
Proof. unfold gtb. rewrite negb_false_iff. apply Qle_bool_iff. Qed.

Lemma ltb_true a b : ltb a b = true <-> a < b.
Proof. unfold ltb. apply gtb_true. Qed.

Lemma ltb_false a b : ltb a b = false <-> b <= a.
Proof. unfold ltb. apply gtb_false. Qed.

Lemma Math_max_lower a b : a <= Math_max a b.
Proof.
  unfold Math_max. destruct (Qle_bool a b) eqn:Hab; [|lra].
  apply Qle_bool_iff in Hab. exact Hab.
Qed.

(** Turn the tests of [frame] into inequalities. *)
Ltac frame_tests :=
  repeat match goal with
  | H : gtb _ _ = true |- _ => apply gtb_true in H
  | H : gtb _ _ = false |- _ => apply gtb_false in H
  | H : ltb _ _ = true |- _ => apply ltb_true in H
  | H : ltb _ _ = false |- _ => apply ltb_false in H
  end.

(** Split on the tests, innermost first. *)
Ltac frame_cases :=
  repeat match goal with
  | |- context [if ?c then _ else _] =>
      lazymatch c with
      | context [if _ then _ else _] => fail
      | _ => destruct c eqn:?
      end
  end; frame_tests.



End PlacementFacts.

(** ** The placement in double arithmetic *)

Section PlacementDoubles.

Import PrimFloat PopupDoubles PlacementSpec.
Local Open Scope float_scope.

(** Split on the comparisons of [frame], innermost first. *)
Ltac split_comparisons :=
  repeat match goal with
  | |- context [if ?c then _ else _] =>
      lazymatch c with
      | context [if _ then _ else _] => fail
      | _ => destruct c eqn:?
      end
  end.

(** C7 (as stated, refuted).  The horizontal clamp does not keep the right
    edge within the viewport width less the margin for every content size: a
    box 500 wide in a viewport 400 wide, triggered at x = 200, is put at
    left = 20 and ends at 520, beyond 380.  Nor is the centred placement only
    reached through the one below: triggered at y = 1000 in a viewport 800
    high, a box 100 high has its above placement at 880, which clears the
    margin, and is centred at 350 without the one below being tried. *)
Lemma wide_box_passes_right_edge :
  let wide := frame 200 300 800 400 {| width := 500; height := 100 |} in
  let low := frame 200 1000 800 400 {| width := 300; height := 100 |} in
  style_left wide = 20
  /\ (style_left wide + 500 <=? 400 - margin) = false
  /\ (400 - margin <? style_left wide + 500) = true
  /\ (aboveTop 1000 100 <? margin) = false
  /\ style_top low = 350
  /\ tier 1000 100 800 = Centered.
Proof. repeat split; vm_compute; reflexivity. Qed.

(** C7 (amended).  In double arithmetic, for every trigger point, content
    size and viewport, the computation of [positionPopup] is the placement
    by fallbacks of [PlacementSpec]: the left edge is the one of the side
    chosen (centred on the trigger; shifted when the right edge would pass
    the viewport width less the margin; at the margin when it would
    otherwise be less than the margin), so it is never less than the margin;
    the top edge is the one of the tier chosen (above; below when the top
    above would be less than the margin; centred when the bottom edge of the
    one in effect passes the viewport height less the margin).  In a 400 by
    800 viewport, a 300 by 100 box triggered at (390, 50) is shifted and
    placed below, at left = 80 and top = 70, so that left + width <= 400 - 20
    and top >= 20. *)
Theorem placement_three_tier (x y w h vw vh : float) :
  let p := frame x y vh vw {| width := w; height := h |} in
  let q := frame 390 50 800 400 {| width := 300; height := 100 |} in
  style_left p = sideLeft (side x w vw) x w vw
  /\ style_top p = tierTop (tier y h vh) y h vh
  /\ (style_left p <? margin) = false
  /\ side 390 300 400 = Shifted
  /\ tier 50 100 800 = Below
  /\ style_left q = 80
  /\ style_top q = 70
  /\ (style_left q + 300 <=? 400 - margin) = true
  /\ (margin <=? style_top q) = true.
Proof.
  intros p q. subst p q.
  split; [|split; [|split]].
  - unfold frame, side, sideLeft, shiftedLeft, centredLeft, margin; simpl.
    split_comparisons; reflexivity.
  - unfold frame, tier, tierTop, aboveTop, belowTop, centeredTop, margin; simpl.
    split_comparisons; reflexivity.
  - unfold frame, margin; simpl.
    split_comparisons; try reflexivity; assumption.
  - repeat split; vm_compute; reflexivity.
Qed.

End PlacementDoubles.

(** ** Claims about the resolver *)

Section ResolverFacts.

Import Resolver.

Variable fetch : nat -> jsstring -> jsstring -> Completion Response.
Variable JSON_parse : jsstring -> Completion JSValue.
Variable window : Popup.Window.
Variable getBoundingClientRect : jsstring -> jsstring -> Popup.Rect.

Local Abbreviation lookup := (Resolver.lookup fetch JSON_parse).
Local Abbreviation getWordDefinition := (Resolver.getWordDefinition fetch JSON_parse).
Local Abbreviation showWordPopup :=
  (Resolver.showWordPopup fetch JSON_parse window getBoundingClientRect).

(** The three kinds of failure all make the [try] block throw. *)
Lemma lookup_network_error n word apiKey e :
  fetch n word apiKey = inl e -> lookup n word apiKey = inl e.
Proof. unfold Resolver.lookup. intros ->. reflexivity. Qed.

Lemma lookup_bad_status n word apiKey response :
  fetch n word apiKey = inr response -> ok response = false ->
  lookup n word apiKey = inl (HttpError (status response) (statusText response)).
Proof. unfold Resolver.lookup. intros -> Hok. simpl. rewrite Hok. reflexivity. Qed.

Lemma lookup_malformed_body n word apiKey response e :
  fetch n word apiKey = inr response -> ok response = true ->
  json response = inl e ->
  lookup n word apiKey = inl e.
Proof.
  unfold Resolver.lookup. intros -> Hok Hjson. simpl. rewrite Hok, Hjson. reflexivity.
Qed.

Lemma lookup_malformed_content n word apiKey response content e :
  fetch n word apiKey = inr response -> ok response = true ->
  json response
  = inr (JObject [ (lit "choices",
          JArray [ JObject [ (lit "message",
                     JObject [ (lit "content", content) ]) ] ]) ]) ->
  JSON_parse (ToString content) = inl e ->
  lookup n word apiKey = inl e.
Proof.
  unfold Resolver.lookup. intros -> Hok Hjson Hparse. simpl.
  rewrite Hok, Hjson. simpl. exact Hparse.
Qed.

(** The resolver never throws. *)
Lemma getWordDefinition_returns word apiKey app :
  exists definition, fst (getWordDefinition word apiKey app) = ret definition.
Proof.
  unfold Resolver.getWordDefinition.
  destruct (fallbackDefinitions app !! word) as [cached|]; [eauto|].
  destruct (lookup (requests app) word apiKey); eauto.
Qed.

(** The content is read from the data in one go. *)
Lemma lookup_contentOf n word apiKey :
  lookup n word apiKey
  = (let* response := fetch n word apiKey in
     if negb (ok response)
     then throw (HttpError (status response) (statusText response))
     else
       let* data := json response in
       let* content := Failures.contentOf data in
       JSON_parse (ToString content)).
Proof.
  unfold Resolver.lookup, Failures.contentOf.
  destruct (fetch n word apiKey) as [e|response]; [reflexivity|]. simpl.
  destruct (negb (ok response)); [reflexivity|].
  destruct (json response) as [e|data]; [reflexivity|]. simpl.
  destruct (getProperty data (lit "choices")) as [e|choices]; [reflexivity|]. simpl.
  destruct (getFirst choices) as [e|choice]; [reflexivity|]. simpl.
  destruct (getProperty choice (lit "message")) as [e|message]; reflexivity.
Qed.

(** The [try] block throws in the five listed ways and in no other. *)
Lemma lookup_throws n word apiKey e :
  lookup n word apiKey = inl e <-> Failures.Thrown fetch JSON_parse n word apiKey e.
Proof.
  rewrite lookup_contentOf. split.
  - destruct (fetch n word apiKey) as [e0|response] eqn:Hfetch; simpl.
    + intros [= <-]. apply Failures.NetworkError. exact Hfetch.
    + destruct (ok response) eqn:Hok; simpl.
      * destruct (json response) as [e0|data] eqn:Hjson; simpl.
        -- intros [= <-]. eapply Failures.BodyNotJson; eassumption.
        -- destruct (Failures.contentOf data) as [e0|content] eqn:Hcontent; simpl.
           ++ intros [= <-]. eapply Failures.ContentUnreadable; eassumption.
           ++ intros Hparse. eapply Failures.ContentNotJson; eassumption.
      * intros [= <-]. eapply Failures.BadStatus; eassumption.
  - intros [e0 Hfetch|response Hfetch Hok|response e0 Hfetch Hok Hjson
           |response data e0 Hfetch Hok Hjson Hcontent
           |response data content e0 Hfetch Hok Hjson Hcontent Hparse];
      rewrite Hfetch; simpl; rewrite ?Hok; simpl; rewrite ?Hjson; simpl;
      rewrite ?Hcontent; simpl; auto.
Qed.

(** It returns exactly when the content of an ok reply parses. *)
Lemma lookup_returns n word apiKey parsedContent :
  lookup n word apiKey = inr parsedContent
  <-> Failures.Parsed fetch JSON_parse n word apiKey parsedContent.
Proof.
  rewrite lookup_contentOf. unfold Failures.Parsed. split.
  - destruct (fetch n word apiKey) as [e0|response] eqn:Hfetch; simpl; [discriminate|].
    destruct (ok response) eqn:Hok; simpl; [|discriminate].
    destruct (json response) as [e0|data] eqn:Hjson; simpl; [discriminate|].
    destruct (Failures.contentOf data) as [e0|content] eqn:Hcontent; simpl; [discriminate|].
    intros Hparse. exists response, data, content. auto.
  - intros (response & data & content & Hfetch & Hok & Hjson & Hcontent & Hparse).
    rewrite Hfetch. simpl. rewrite Hok. simpl. rewrite Hjson. simpl.
    rewrite Hcontent. simpl. exact Hparse.
Qed.

(** C2 (amended).  For a word that is not cached: when the lookup throws,
    which it does exactly when [fetch] rejects, the status is not ok, the
    body is not JSON, the content cannot be read from the data or the
    content is not JSON, the resolver does not throw; it returns the sentinel
    [{ reading: "?", meaning: "Definition unavailable" }] after its one
    request and stores nothing: the cache is as before and the word is still
    absent from it.  When the content of an ok reply parses, to whatever
    value, also one that is no definition, the lookup has not failed for the
    code: that value is returned and stored under the word. *)
Theorem failed_lookup_returns_uncached_sentinel
    (word apiKey : jsstring) (app : App) :
  fallbackDefinitions app !! word = None ->
  let sentinel :=
    JObject [ (lit "reading", JString (lit "?"));
              (lit "meaning", JString (lit "Definition unavailable")) ] in
  (forall e,
     Failures.Thrown fetch JSON_parse (requests app) word apiKey e ->
     getWordDefinition word apiKey app = (ret sentinel, countRequest app)
     /\ fallbackDefinitions (snd (getWordDefinition word apiKey app))
        = fallbackDefinitions app
     /\ fallbackDefinitions (snd (getWordDefinition word apiKey app)) !! word = None)
  /\ (forall e,
        lookup (requests app) word apiKey = inl e
        <-> Failures.Thrown fetch JSON_parse (requests app) word apiKey e)
  /\ (forall parsedContent,
        Failures.Parsed fetch JSON_parse (requests app) word apiKey parsedContent ->
        getWordDefinition word apiKey app
        = (ret parsedContent, setDefinition word parsedContent (countRequest app))
        /\ fallbackDefinitions (snd (getWordDefinition word apiKey app)) !! word
           = Some parsedContent)
  /\ (forall parsedContent,
        lookup (requests app) word apiKey = inr parsedContent
        <-> Failures.Parsed fetch JSON_parse (requests app) word apiKey parsedContent).
Proof.
  intros Hmiss sentinel. split; [|split; [|split]].
  - intros e Hthrown. apply lookup_throws in Hthrown.
    unfold Resolver.getWordDefinition. rewrite Hmiss, Hthrown. simpl. auto.
  - intros e. apply lookup_throws.
  - intros parsedContent Hparsed. apply lookup_returns in Hparsed.
    unfold Resolver.getWordDefinition. rewrite Hmiss, Hparsed. simpl.
    rewrite lookup_insert_eq. auto.
  - intros parsedContent. apply lookup_returns.
Qed.

(** C6.  A cached word is answered from the cache, with no request and no
    change of state; and once a first resolve has fetched and parsed a
    definition, a second resolve of the same word (with whatever key)
    returns that definition and again leaves the state, request count
    included, as it is. *)
Theorem cached_word_resolved_without_lookup
    (word apiKey apiKey' : jsstring) (app : App) :
  (forall cached,
     fallbackDefinitions app !! word = Some cached ->
     getWordDefinition word apiKey app = (ret cached, app))
  /\ (forall parsedContent,
       fallbackDefinitions app !! word = None ->
       lookup (requests app) word apiKey = inr parsedContent ->
       let first := getWordDefinition word apiKey app in
       fst first = ret parsedContent
       /\ requests (snd first) = S (requests app)
       /\ getWordDefinition word apiKey' (snd first) = (ret parsedContent, snd first)).
Proof.
  split.
  - intros cached Hhit. unfold Resolver.getWordDefinition. rewrite Hhit. reflexivity.
  - intros parsedContent Hmiss Hfound. unfold Resolver.getWordDefinition.
    rewrite Hmiss, Hfound. simpl.
    rewrite lookup_insert_eq. auto.
Qed.

(** C8 (amended).  A click on a word that is not cached, with a key typed
    in and a lookup that throws (in any of its five ways), ends without an
    exception: the resolver hands the sentinel to [showWordPopup], which
    shows the popup for the word with the reading [?] and the meaning
    [Definition unavailable], in the markup of the source, and makes the word
    the current word.  Nothing is alerted and the cache is untouched, so the
    word can be clicked again and is then looked up anew. *)
Theorem lookup_failure_shows_unavailable
    (event : WordEvent) (app : App) (e : Exception) :
  fallbackDefinitions app !! dataset_word event = None ->
  trim (apiKeyInput app) <> [] ->
  Failures.Thrown fetch JSON_parse (requests app) (dataset_word event)
    (trim (apiKeyInput app)) e ->
  let word := dataset_word event in
  let after := snd (showWordPopup event app) in
  fst (getWordDefinition word (trim (apiKeyInput app)) app)
  = ret (JObject [ (lit "reading", JString (lit "?"));
                   (lit "meaning", JString (lit "Definition unavailable")) ])
  /\ fst (showWordPopup event app) = ret tt
  /\ popupHidden after = false
  /\ popupWord after = word
  /\ popupMeaning after
     = [NEWLINE] ++ lit "            <div><strong>Reading:</strong> ?</div>"
       ++ [NEWLINE]
       ++ lit "            <div><strong>Meaning:</strong> Definition unavailable</div>"
       ++ [NEWLINE] ++ lit "        "
  /\ currentWord after = Some word
  /\ alerts after = alerts app
  /\ fallbackDefinitions after = fallbackDefinitions app
  /\ fallbackDefinitions after !! word = None
  /\ requests after = S (requests app)
  /\ (forall apiKey',
        requests (snd (getWordDefinition word apiKey' after)) = S (requests after)).
Proof.
  intros Hmiss Hkey Hthrown word after. subst word after.
  apply lookup_throws in Hthrown.
  unfold Resolver.showWordPopup, Resolver.getWordDefinition.
  rewrite Hmiss. simpl.
  destruct (trim (apiKeyInput app)) as [|c key] eqn:Hk; [contradiction|].
  simpl. rewrite Hmiss, Hthrown. simpl.
  repeat split; try solve [reflexivity | exact Hmiss].
  intros apiKey'. unfold Resolver.getWordDefinition. simpl. rewrite Hmiss.
  destruct (lookup _ _ apiKey'); reflexivity.
Qed.

End ResolverFacts.

Import Resolver Worlds.

Lemma failed_lookup_returns_uncached_sentinel_witness :
  getWordDefinition offline parse neko (lit "sk-test") fresh
  = (ret (JObject [ (lit "reading", JString (lit "?"));
                    (lit "meaning", JString (lit "Definition unavailable")) ]),
     countRequest fresh)
  /\ fallbackDefinitions (snd (getWordDefinition offline parse neko (lit "sk-test") fresh))
     !! neko = None
  /\ getWordDefinition online parse neko (lit "sk-test") fresh
     = (ret nekoDefinition, setDefinition neko nekoDefinition (countRequest fresh))
  /\ getWordDefinition online Pages.parseNull neko (lit "sk-test") fresh
     = (ret JNull, setDefinition neko JNull (countRequest fresh)).
Proof.
  destruct (failed_lookup_returns_uncached_sentinel offline parse neko (lit "sk-test")
              fresh) as (Hthrown & _); [reflexivity|].
  destruct (Hthrown TypeError) as (Hsentinel & _ & Habsent);
    [apply Failures.NetworkError; reflexivity|].
  destruct (failed_lookup_returns_uncached_sentinel online parse neko (lit "sk-test")
              fresh) as (_ & _ & Hparsed & _); [reflexivity|].
  destruct (failed_lookup_returns_uncached_sentinel online Pages.parseNull neko
              (lit "sk-test") fresh) as (_ & _ & Hnull & _); [reflexivity|].
  split; [exact Hsentinel|]. split; [exact Habsent|]. split.
  - apply Hparsed. eexists _, _, _. repeat split; reflexivity.
  - apply Hnull. eexists _, _, _. repeat split; reflexivity.
Defined.

(** C2 (as stated, refuted).  Offline, the resolver returns the sentinel for
    猫 but the cache does not hold it afterwards. *)
Lemma sentinel_not_stored :
  ~ (fst (getWordDefinition offline parse neko (lit "sk-test") fresh) = ret unavailable
     /\ fallbackDefinitions (snd (getWordDefinition offline parse neko (lit "sk-test") fresh))
        !! neko = Some unavailable).
Proof. intros [_ Hstored]. vm_compute in Hstored. discriminate. Qed.

Lemma cached_word_resolved_without_lookup_witness :
  let first := getWordDefinition online parse neko (lit "sk-test") fresh in
  fst first = ret nekoDefinition
  /\ requests (snd first) = 1%nat
  /\ getWordDefinition offline parse neko [] (snd first) = (ret nekoDefinition, snd first)
  /\ getWordDefinition online parse neko [] (snd first) = (ret nekoDefinition, snd first).
Proof.
  destruct (cached_word_resolved_without_lookup online parse neko (lit "sk-test") []
              fresh) as [_ Hsecond].
  destruct (Hsecond nekoDefinition) as (Hfirst & Hcount & Hagain);
    [reflexivity|reflexivity|].
  destruct (cached_word_resolved_without_lookup offline parse neko [] []
              (snd (getWordDefinition online parse neko (lit "sk-test") fresh)))
    as [Hhit _].
  split; [exact Hfirst|]. split; [exact Hcount|].
  split; [|exact Hagain].
  apply Hhit. vm_compute. reflexivity.
Defined.

(** C8 (as stated, refuted).  A reply whose content reads [null] gives no
    definition, yet it is no failure for the code: the resolver returns
    [null], not the sentinel, and stores it; the popup stays on its loading
    text, the word does not become the current word, and a further click
    changes nothing of that and makes no request. *)
Lemma null_reply_leaves_loading_text :
  let key := trim (apiKeyInput fresh) in
  let first := showWordPopup online Pages.parseNull window rect click fresh in
  let second := showWordPopup online Pages.parseNull window rect click (snd first) in
  fst (getWordDefinition online Pages.parseNull neko key fresh) = ret JNull
  /\ fst (getWordDefinition online Pages.parseNull neko key fresh) <> ret unavailable
  /\ popupMeaning (snd first) = loadingMarkup
  /\ popupMeaning (snd first)
     <> [NEWLINE] ++ lit "            <div><strong>Reading:</strong> ?</div>"
        ++ [NEWLINE]
        ++ lit "            <div><strong>Meaning:</strong> Definition unavailable</div>"
        ++ [NEWLINE] ++ lit "        "
  /\ currentWord (snd first) = None
  /\ fallbackDefinitions (snd first) !! neko = Some JNull
  /\ popupMeaning (snd second) = loadingMarkup
  /\ currentWord (snd second) = None
  /\ requests (snd second) = requests (snd first).
Proof.
  repeat split; try (vm_compute; reflexivity); vm_compute; discriminate.
Qed.

Lemma lookup_failure_shows_unavailable_witness :
  let after := snd (showWordPopup unauthorized parse window rect click fresh) in
  fst (getWordDefinition unauthorized parse neko (trim (apiKeyInput fresh)) fresh)
  = ret (JObject [ (lit "reading", JString (lit "?"));
                   (lit "meaning", JString (lit "Definition unavailable")) ])
  /\ fst (showWordPopup unauthorized parse window rect click fresh) = ret tt
  /\ popupHidden after = false
  /\ popupWord after = neko
  /\ popupMeaning after
     = [NEWLINE] ++ lit "            <div><strong>Reading:</strong> ?</div>"
       ++ [NEWLINE]
       ++ lit "            <div><strong>Meaning:</strong> Definition unavailable</div>"
       ++ [NEWLINE] ++ lit "        "
  /\ currentWord after = Some neko
  /\ alerts after = []
  /\ fallbackDefinitions after = ∅
  /\ fallbackDefinitions after !! neko = None
  /\ requests after = 1%nat
  /\ (forall apiKey',
        requests (snd (getWordDefinition unauthorized parse neko apiKey' after)) = 2%nat).
Proof.
  apply (lookup_failure_shows_unavailable unauthorized parse window rect click fresh
           (HttpError 401 (lit "Unauthorized"))).
  - reflexivity.
  - vm_compute. discriminate.
  - apply (Failures.BadStatus unauthorized parse 0%nat neko (trim (apiKeyInput fresh))
             {| ok := false; status := 401; statusText := lit "Unauthorized";
                json := ret JNull |}); reflexivity.
Defined.

(** * Further properties *)

(** ** The candidate words *)

Section CandidateFacts.

Lemma setAdd_NoDup (s : list jsstring) (w : jsstring) :
  NoDup s -> NoDup (setAdd s w).
Proof.
  intros Hs. unfold setAdd. destruct (includes s w) eqn:Hin; [exact Hs|].
  apply includes_false in Hin.
  apply NoDup_app. split; [exact Hs|]. split.
  - intros x Hx Hxw. apply list_elem_of_singleton in Hxw. subst x. contradiction.
  - apply NoDup_singleton.
Qed.

Lemma addCandidate_NoDup (s : list jsstring) (w : jsstring) :
  NoDup s -> NoDup (addCandidate s w).
Proof.
  intros Hs. unfold addCandidate.
  destruct (negb (includes particles w) && (1 <=? Z.of_nat (length w)));
    [apply setAdd_NoDup|]; exact Hs.
Qed.

Lemma candidates_NoDup (l s : list jsstring) :
  NoDup s -> NoDup (fold_left addCandidate l s).
Proof.
  revert s. induction l as [|a l IH]; intros s Hs; simpl; [exact Hs|].
  apply IH, addCandidate_NoDup, Hs.
Qed.

Lemma candidates_keep (l s : list jsstring) (w : jsstring) :
  w ∈ s -> w ∈ fold_left addCandidate l s.
Proof.
  revert s. induction l as [|a l IH]; intros s Hs; simpl; [exact Hs|].
  apply IH. unfold addCandidate.
  destruct (negb (includes particles a) && (1 <=? Z.of_nat (length a))); [|exact Hs].
  unfold setAdd. destruct (includes s a); [exact Hs|].
  apply elem_of_app. auto.
Qed.

Lemma candidates_take (l s : list jsstring) (w : jsstring) :
  w ∈ l -> w ∉ particles -> w <> [] -> w ∈ fold_left addCandidate l s.
Proof.
  revert s. induction l as [|a l IH]; intros s Hin Hp Hne.
  - apply elem_of_nil in Hin. contradiction.
  - apply elem_of_cons in Hin. destruct Hin as [<-|Hin]; [|apply IH; assumption].
    simpl. apply candidates_keep. unfold addCandidate.
    apply includes_false in Hp. rewrite Hp.
    destruct w as [|c w]; [contradiction|].
    assert ((1 <=? Z.of_nat (length (c :: w))) = true) as ->
      by (apply Z.leb_le; simpl length; lia).
    simpl negb. simpl andb.
    unfold setAdd. destruct (includes s (c :: w)) eqn:Hs.
    + apply includes_true. exact Hs.
    + apply elem_of_app. right. apply list_elem_of_singleton. reflexivity.
Qed.

(** Reading a stretch of class characters extends the current run. *)
Lemma execAll_class_run (u run rest : jsstring) :
  Forall (fun c => inClass c = true) u ->
  execAll run (u ++ rest) = execAll (run ++ u) rest.
Proof.
  intros Hu. revert run. induction Hu as [|c u Hc _ IH]; intros run; simpl.
  - rewrite app_nil_r. reflexivity.
  - rewrite Hc, IH, <- app_assoc. reflexivity.
Qed.

(** What follows a character outside the class is matched on its own. *)
Lemma execAll_after_break (pre run rest : jsstring) (c : Z) :
  inClass c = false ->
  exists l, execAll run (pre ++ c :: rest) = l ++ execAll [] rest.
Proof.
  intros Hc. revert run. induction pre as [|d pre IH]; intros run; simpl.
  - rewrite Hc. destruct run; [exists []|eexists [_]]; reflexivity.
  - destruct (inClass d); [apply IH|].
    destruct run as [|r run'].
    + apply IH.
    + destruct (IH []) as [l Hl]. exists ((r :: run') :: l). rewrite Hl. reflexivity.
Qed.

Lemma execAll_run_ends (c : Z) (w post : jsstring) :
  match post with [] => True | d :: _ => inClass d = false end ->
  (c :: w) ∈ execAll (c :: w) post.
Proof.
  destruct post as [|d post]; simpl.
  - intros _. apply list_elem_of_singleton. reflexivity.
  - intros ->. apply elem_of_cons. auto.
Qed.

Lemma stripPrefix_Some (w s rest : jsstring) :
  stripPrefix w s = Some rest <-> s = w ++ rest.
Proof.
  revert s. induction w as [|c w IH]; intros s; simpl.
  - split; [intros [= ->]|intros ->]; reflexivity.
  - destruct s as [|b s]; [split; discriminate|].
    destruct (Z.eqb_spec c b) as [->|Hcb].
    + rewrite IH. split; [intros ->; reflexivity|intros [= ->]; reflexivity].
    + split; [discriminate|intros [= Hb _]; congruence].
Qed.

Lemma class_not_special (c : Z) : inClass c = true -> regexSpecial c = false.
Proof.
  intros Hc. apply bool_decide_eq_false. intros Hin.
  unfold inClass in Hc.
  repeat (apply elem_of_cons in Hin; destruct Hin as [->|Hin]; [discriminate Hc|]).
  apply elem_of_nil in Hin. exact Hin.
Qed.

Lemma escapeRegex_class (w : jsstring) :
  Forall (fun c => inClass c = true) w -> escapeRegex w = w.
Proof.
  induction 1 as [|c w Hc _ IH]; [reflexivity|].
  simpl. rewrite (class_not_special c Hc). simpl. rewrite IH. reflexivity.
Qed.

(** X1.  The converse of the tokenizer's soundness: a non-empty stretch of
    class characters that is bounded on both sides by the ends of the text
    or by characters outside the class, and that is no particle, is one of
    the candidate words. *)
Theorem every_bounded_run_is_a_candidate (pre w post : jsstring) :
  w <> [] ->
  Forall (fun c => inClass c = true) w ->
  match last pre with None => True | Some c => inClass c = false end ->
  match post with [] => True | d :: _ => inClass d = false end ->
  w ∉ particles ->
  w ∈ wordsToMakeClickable (pre ++ w ++ post).
Proof.
  intros Hne Hw Hpre Hpost Hp.
  unfold wordsToMakeClickable, meaningfulWordRegex.
  apply candidates_take; [|exact Hp|exact Hne].
  assert (w ∈ execAll [] (w ++ post)) as Hrun.
  { rewrite execAll_class_run by exact Hw. simpl.
    destruct w as [|c w]; [contradiction|]. apply execAll_run_ends, Hpost. }
  destruct pre as [|c pre _] using rev_ind; [exact Hrun|].
  rewrite last_snoc in Hpre. rewrite <- app_assoc. simpl.
  destruct (execAll_after_break pre [] (w ++ post) c Hpre) as [l ->].
  apply elem_of_app. auto.
Qed.

Lemma every_bounded_run_is_a_candidate_witness :
  kou ∈ wordsToMakeClickable ([0x732B; 0x304C] ++ kou ++ [0x304D; 0x3067; 0x3059; 0x3002]).
Proof.
  apply (every_bounded_run_is_a_candidate [0x732B; 0x304C] kou
           [0x304D; 0x3067; 0x3059; 0x3002]).
  - discriminate.
  - repeat constructor.
  - reflexivity.
  - reflexivity.
  - apply includes_false. reflexivity.
Defined.

(** X2.  The candidate words form a set: none is listed twice.  Each is made
    of class characters only, so [escapeRegex] leaves every candidate as it
    is and the pattern built from it holds no regex operator. *)
Theorem candidates_distinct_and_unescaped (text : jsstring) :
  NoDup (wordsToMakeClickable text)
  /\ forall w, w ∈ wordsToMakeClickable text ->
       Forall (fun c => inClass c = true) w /\ escapeRegex w = w.
Proof.
  split.
  - apply candidates_NoDup. constructor.
  - intros w Hw. apply wordsToMakeClickable_inClass in Hw.
    split; [exact Hw|apply escapeRegex_class, Hw].
Qed.

Lemma insertByLength_Permutation (w : jsstring) (l : list jsstring) :
  insertByLength w l ≡ₚ w :: l.
Proof.
  induction l as [|v l IH]; simpl; [reflexivity|].
  destruct (length w <? length v)%nat; [|reflexivity].
  rewrite IH. apply Permutation_swap.
Qed.

Lemma sortByLength_Permutation (l : list jsstring) : sortByLength l ≡ₚ l.
Proof.
  induction l as [|w l IH]; simpl; [reflexivity|].
  rewrite insertByLength_Permutation, IH. reflexivity.
Qed.

Lemma insertByLength_sorted (w : jsstring) (l : list jsstring) :
  StronglySorted longerFirst l -> StronglySorted longerFirst (insertByLength w l).
Proof.
  induction 1 as [|v l Hl IH Hv]; simpl.
  - constructor; constructor.
  - destruct (length w <? length v)%nat eqn:Hlt.
    + apply Nat.ltb_lt in Hlt. constructor; [exact IH|].
      rewrite insertByLength_Permutation. constructor; [|exact Hv].
      unfold longerFirst. lia.
    + apply Nat.ltb_ge in Hlt. constructor; [constructor; assumption|].
      constructor; [exact Hlt|].
      eapply Forall_impl; [exact Hv|]. unfold longerFirst. intros; simpl in *; lia.
Qed.

(** X3.  [sortedWords] holds exactly the candidate words, each once, and no
    word comes before a longer one: every word is processed before all of
    its proper substrings that are candidates too. *)
Theorem sortedWords_longest_first (text : jsstring) :
  sortedWords text ≡ₚ wordsToMakeClickable text
  /\ NoDup (sortedWords text)
  /\ StronglySorted longerFirst (sortedWords text).
Proof.
  unfold sortedWords. split; [apply sortByLength_Permutation|]. split.
  - rewrite sortByLength_Permutation. apply candidates_NoDup. constructor.
  - induction (wordsToMakeClickable text) as [|w l IH]; simpl.
    + constructor.
    + apply insertByLength_sorted, IH.
Qed.

End CandidateFacts.

(** ** The text under the tags *)

Section DisplayFacts.

Import Markup.

(** The characters of a candidate word: no angle bracket, no newline. *)
Local Abbreviation wordChars := (Forall (fun c => c <> LT /\ c <> GT /\ c <> NEWLINE)).

Lemma class_wordChars (w : jsstring) :
  Forall (fun c => inClass c = true) w -> wordChars w.
Proof.
  intros Hw. eapply Forall_impl; [exact Hw|]. intros c Hc. unfold inClass in Hc.
  repeat split; intros ->; discriminate Hc.
Qed.

Lemma characterData_text (u rest : jsstring) :
  Forall (fun c => plain c = true) u ->
  characterData None (u ++ rest) = option_map (app u) (characterData None rest).
Proof.
  induction 1 as [|c u Hc _ IH]; simpl.
  - destruct (characterData None rest); reflexivity.
  - unfold plain in Hc. apply andb_true_iff in Hc. destruct Hc as [Hlt Hgt].
    apply negb_true_iff in Hlt, Hgt. rewrite Hlt, Hgt, IH.
    destruct (characterData None rest); reflexivity.
Qed.

Lemma characterData_in_tag (u name rest : jsstring) :
  wordChars u ->
  characterData (Some name) (u ++ rest) = characterData (Some (name ++ u)) rest.
Proof.
  intros Hu. revert name. induction Hu as [|c u (Hlt & Hgt & Hnl) _ IH]; intros name; simpl.
  - rewrite app_nil_r. reflexivity.
  - apply Z.eqb_neq in Hlt, Hgt, Hnl. rewrite Hlt, Hgt, Hnl. simpl.
    rewrite IH, <- app_assoc. reflexivity.
Qed.

Lemma wordChars_plain (u : jsstring) :
  wordChars u -> Forall (fun c => plain c = true) u.
Proof.
  intros Hu. eapply Forall_impl; [exact Hu|]. intros c (Hlt & Hgt & _). unfold plain.
  apply Z.eqb_neq in Hlt, Hgt. rewrite Hlt, Hgt. reflexivity.
Qed.

Lemma characterData_spanOpen (w rest : jsstring) :
  wordChars w -> characterData None (spanOpen w ++ rest) = characterData None rest.
Proof.
  intros Hw. unfold spanOpen, openTag. rewrite <- !app_assoc. simpl.
  rewrite characterData_in_tag by exact Hw. simpl.
  reflexivity.
Qed.

Lemma characterData_spanClose (rest : jsstring) :
  characterData None (spanClose ++ rest) = characterData None rest.
Proof. reflexivity. Qed.

Lemma characterData_spanMarkup (w rest : jsstring) :
  wordChars w ->
  characterData None (spanMarkup w ++ rest) = option_map (app w) (characterData None rest).
Proof.
  intros Hw. unfold spanMarkup. rewrite <- !app_assoc.
  rewrite characterData_spanOpen by exact Hw.
  rewrite characterData_text by (apply wordChars_plain, Hw).
  rewrite characterData_spanClose. reflexivity.
Qed.

(** Inside a tag of well-formed markup, a [>] comes before any [<]. *)
Lemma characterData_closesTag (s name t : jsstring) :
  characterData (Some name) s = Some t -> closesTag s = true.
Proof.
  revert name. induction s as [|c s IH]; intros name; simpl; [discriminate|].
  destruct (c =? GT); [reflexivity|].
  destruct (c =? LT); simpl; [discriminate|].
  destruct (c =? NEWLINE); [discriminate|]. apply IH.
Qed.

Lemma replaceFrom_skip (pat repl u rest : jsstring) :
  replaceFrom pat repl (length u) (u ++ rest) = replaceFrom pat repl 0 rest.
Proof.
  induction u as [|c u IH]; [reflexivity|]. simpl. exact IH.
Qed.

Lemma matchHere_Some (w s after : jsstring) :
  matchHere (escapeRegex w) s = Some after ->
  s = w ++ after /\ closesTag after = false.
Proof.
  unfold matchHere. destruct (tagAhead s); [discriminate|].
  rewrite matchEscaped_escapeRegex.
  destruct (stripPrefix w s) as [rest|] eqn:Hs; [|discriminate].
  destruct (closesTag rest) eqn:Hc; [discriminate|].
  intros [= <-]. apply stripPrefix_Some in Hs. auto.
Qed.

(** One round of the loop leaves the character data as it is. *)
Lemma wrapWord_characterData_upto (w : jsstring) (n : nat) :
  w <> [] -> wordChars w ->
  forall (s : jsstring) (tag : option jsstring) (t : jsstring),
    (length s <= n)%nat ->
    characterData tag s = Some t ->
    characterData tag (replaceFrom (escapeRegex w) (spanMarkup w) 0 s) = Some t.
Proof.
  intros Hne Hw. induction n as [|n IH]; intros s tag t Hlen Hd.
  - destruct s; [|simpl in Hlen; lia].
    simpl. destruct (matchHere (escapeRegex w) []) eqn:Hm; [|exact Hd].
    apply matchHere_Some in Hm. destruct Hm as [Hm _].
    destruct w; [contradiction|discriminate].
  - destruct s as [|c rest].
    { simpl. destruct (matchHere (escapeRegex w) []) eqn:Hm; [|exact Hd].
      apply matchHere_Some in Hm. destruct Hm as [Hm _].
      destruct w; [contradiction|discriminate]. }
    simpl in Hlen. cbn [replaceFrom].
    destruct (matchHere (escapeRegex w) (c :: rest)) as [after|] eqn:Hm.
    + apply matchHere_Some in Hm. destruct Hm as [Hs Hopen].
      destruct w as [|c' w']; [contradiction|].
      simpl in Hs. injection Hs as -> ->.
      replace (length (c' :: w' ++ after) - length after)%nat with (S (length w'))
        by (simpl; rewrite length_app; lia).
      rewrite replaceFrom_skip.
      change (c' :: w' ++ after) with ((c' :: w') ++ after) in Hd.
      destruct tag as [name|].
      * rewrite characterData_in_tag in Hd by exact Hw.
        apply characterData_closesTag in Hd. congruence.
      * rewrite characterData_text in Hd by (apply wordChars_plain, Hw).
        rewrite characterData_spanMarkup by exact Hw.
        destruct (characterData None after) as [t'|] eqn:Hafter; [|discriminate].
        rewrite (IH after None t'); [exact Hd| |exact Hafter].
        rewrite length_app in Hlen. lia.
    + assert (forall tag' t', characterData tag' rest = Some t' ->
                characterData tag' (replaceFrom (escapeRegex w) (spanMarkup w) 0 rest)
                = Some t') as IH'.
      { intros tag' t' Hd'. apply IH; [lia|exact Hd']. }
      simpl in Hd |- *. destruct tag as [name|].
      * destruct (c =? GT).
        -- destruct (bool_decide (name = lit "br")).
           ++ destruct (characterData None rest) as [t'|] eqn:Hrest; [|discriminate].
              rewrite (IH' None t' Hrest). exact Hd.
           ++ apply IH'. exact Hd.
        -- destruct ((c =? LT) || (c =? NEWLINE)); [discriminate|].
           apply IH'. exact Hd.
      * destruct (c =? LT); [apply IH'; exact Hd|].
        destruct (c =? GT); [discriminate|].
        destruct (characterData None rest) as [t'|] eqn:Hrest; [|discriminate].
        rewrite (IH' None t' Hrest). exact Hd.
Qed.

Lemma wrapWords_characterData (words : list jsstring) (s t : jsstring) :
  Forall (fun w => w <> [] /\ wordChars w) words ->
  characterData None s = Some t ->
  characterData None (wrapWords words s) = Some t.
Proof.
  intros Hwords. revert s. induction Hwords as [|w words [Hne Hw] _ IH]; intros s Hd.
  - exact Hd.
  - simpl. apply IH. unfold wrapWord.
    apply (wrapWord_characterData_upto w (length s) Hne Hw); [lia|exact Hd].
Qed.

(** Newlines of the text become [<br>] tags, which count as newlines. *)
Lemma nl2br_characterData (s : jsstring) (tag : option jsstring) (t : jsstring) :
  characterData tag s = Some t -> characterData tag (nl2br s) = Some t.
Proof.
  revert tag t. induction s as [|c s IH]; intros tag t Hd; [exact Hd|].
  change (nl2br (c :: s)) with ((if c =? NEWLINE then lit "<br>" else [c]) ++ nl2br s).
  destruct (Z.eqb_spec c NEWLINE) as [->|Hc].
  - destruct tag as [name|]; simpl in Hd.
    + destruct name; discriminate.
    + destruct (characterData None s) as [t'|] eqn:Hs; [|discriminate].
      simpl. rewrite (IH None t' Hs). exact Hd.
  - simpl in Hd |- *. destruct tag as [name|].
    + destruct (c =? GT).
      * destruct (bool_decide (name = lit "br")).
        -- destruct (characterData None s) as [t'|] eqn:Hs; [|discriminate].
           rewrite (IH None t' Hs). exact Hd.
        -- apply IH. exact Hd.
      * destruct ((c =? LT) || (c =? NEWLINE)); [discriminate|]. apply IH. exact Hd.
    + destruct (c =? LT); [apply IH; exact Hd|].
      destruct (c =? GT); [discriminate|].
      destruct (characterData None s) as [t'|] eqn:Hs; [|discriminate].
      rewrite (IH None t' Hs). exact Hd.
Qed.

Lemma sortedWords_wordChars (text : jsstring) :
  Forall (fun w => w <> [] /\ wordChars w) (sortedWords text).
Proof.
  apply Forall_forall. intros w Hin.
  unfold sortedWords in Hin. rewrite sortByLength_Permutation in Hin.
  split.
  - apply elem_of_candidates in Hin.
    destruct Hin as [Hin|[Hin _]]; [apply elem_of_nil in Hin; contradiction|].
    apply (execAll_run text [] [] w) in Hin; [tauto|constructor].
  - apply class_wordChars, (wordsToMakeClickable_inClass text), Hin.
Qed.

(** X5.  Annotating only adds tags: for a text without angle brackets,
    the markup [makeWordsClickable] returns is well formed (its angle
    brackets pair up), and taking its tags out, with a newline for each
    [<br>], gives back exactly the text. *)
Theorem annotation_only_adds_tags (text : jsstring) :
  Forall (fun c => plain c = true) text ->
  characterData None (makeWordsClickable text) = Some text.
Proof.
  intros Hplain. unfold makeWordsClickable.
  apply nl2br_characterData, wrapWords_characterData; [apply sortedWords_wordChars|].
  rewrite <- (app_nil_r text) at 1.
  rewrite characterData_text by exact Hplain. simpl. rewrite app_nil_r. reflexivity.
Qed.

Lemma annotation_only_adds_tags_witness :
  characterData None (makeWordsClickable (tokyo_kyo ++ [NEWLINE] ++ neko_ga_suki_desu))
  = Some (tokyo_kyo ++ [NEWLINE] ++ neko_ga_suki_desu).
Proof.
  apply (annotation_only_adds_tags (tokyo_kyo ++ [NEWLINE] ++ neko_ga_suki_desu)).
  repeat constructor.
Defined.

End DisplayFacts.

(** ** The resolver and the popup *)

Section ResolverMore.

Import Resolver.

Variable fetch : nat -> jsstring -> jsstring -> Completion Response.
Variable JSON_parse : jsstring -> Completion JSValue.
Variable window : Popup.Window.
Variable getBoundingClientRect : jsstring -> jsstring -> Popup.Rect.

Local Abbreviation lookup := (Resolver.lookup fetch JSON_parse).
Local Abbreviation getWordDefinition := (Resolver.getWordDefinition fetch JSON_parse).
Local Abbreviation showWordPopup :=
  (Resolver.showWordPopup fetch JSON_parse window getBoundingClientRect).
Local Abbreviation position := (Resolver.position window getBoundingClientRect).

Lemma trimStart_nil (s : jsstring) :
  trimStart s = [] <-> Forall (fun c => isWhiteSpace c = true) s.
Proof.
  induction s as [|c s IH]; simpl.
  - split; [constructor|reflexivity].
  - destruct (isWhiteSpace c) eqn:Hc.
    + rewrite IH. split; [intros; constructor; assumption|].
      intros H. inversion H; assumption.
    + split; [discriminate|]. intros H. inversion H; congruence.
Qed.

Lemma trimStart_head (s r : jsstring) (c : Z) :
  trimStart s = c :: r -> isWhiteSpace c = false.
Proof.
  induction s as [|d s IH]; simpl; [discriminate|].
  destruct (isWhiteSpace d) eqn:Hd; [exact IH|]. intros [= -> _]. exact Hd.
Qed.

(** A string is trimmed to nothing exactly when it is blank. *)
Lemma trim_nil (s : jsstring) :
  trim s = [] <-> Forall (fun c => isWhiteSpace c = true) s.
Proof.
  unfold trim. rewrite <- trimStart_nil. split.
  - intros H. apply (f_equal (@rev Z)) in H. rewrite rev_involutive in H.
    simpl in H. apply trimStart_nil in H. apply Forall_rev in H.
    rewrite rev_involutive in H.
    destruct (trimStart s) as [|c r] eqn:Hs; [reflexivity|].
    apply trimStart_head in Hs. inversion H; congruence.
  - intros ->. reflexivity.
Qed.

(** X8.  Without a key (the field empty or blank) a click on a word that
    has no cached definition asks for the key and does nothing else: no
    request is made and the popup is left as it was. *)
Theorem blank_key_only_alerts (event : WordEvent) (app : App) :
  fallbackDefinitions app !! dataset_word event = None ->
  Forall (fun c => isWhiteSpace c = true) (apiKeyInput app) ->
  showWordPopup event app
  = (ret tt, alert (lit "API key needed to look up word definitions") app).
Proof.
  intros Hmiss Hblank. apply trim_nil in Hblank.
  unfold Resolver.showWordPopup. rewrite Hmiss, Hblank. reflexivity.
Qed.


(** The resolver leaves the page alone. *)
Lemma getWordDefinition_page (word apiKey : jsstring) (app : App) :
  let after := snd (getWordDefinition word apiKey app) in
  apiKeyInput after = apiKeyInput app
  /\ popupWord after = popupWord app
  /\ popupMeaning after = popupMeaning app
  /\ popupHidden after = popupHidden app
  /\ popupStyle after = popupStyle app
  /\ currentWord after = currentWord app
  /\ alerts after = alerts app.
Proof.
  unfold Resolver.getWordDefinition.
  destruct (fallbackDefinitions app !! word); [simpl; tauto|].
  destruct (lookup (requests app) word apiKey); simpl; tauto.
Qed.

(** X10.  The resolver never throws, makes at most one request, touches
    nothing of the page, and changes the cache at most by adding an entry
    for the word asked: the entries of the other words stay, and an entry
    the word already has is never replaced. *)
Theorem resolver_only_adds_the_word (word apiKey : jsstring) (app : App) :
  let result := fst (getWordDefinition word apiKey app) in
  let after := snd (getWordDefinition word apiKey app) in
  (exists definition, result = ret definition)
  /\ (requests app <= requests after <= S (requests app))%nat
  /\ (forall other, other <> word ->
        fallbackDefinitions after !! other = fallbackDefinitions app !! other)
  /\ (forall cached, fallbackDefinitions app !! word = Some cached ->
        result = ret cached /\ fallbackDefinitions after !! word = Some cached)
  /\ popupWord after = popupWord app
  /\ popupMeaning after = popupMeaning app
  /\ popupHidden after = popupHidden app
  /\ currentWord after = currentWord app
  /\ alerts after = alerts app.
Proof.
  intros result after.
  pose proof (getWordDefinition_page word apiKey app) as (_ & Hw & Hm & Hh & _ & Hc & Ha).
  split; [apply getWordDefinition_returns|].
  split; [|split; [|split; [|tauto]]]; subst result after;
    unfold Resolver.getWordDefinition.
  - destruct (fallbackDefinitions app !! word); [simpl; lia|].
    destruct (lookup (requests app) word apiKey); simpl; lia.
  - intros other Hother.
    destruct (fallbackDefinitions app !! word); [reflexivity|].
    destruct (lookup (requests app) word apiKey); simpl; [reflexivity|].
    apply lookup_insert_ne. congruence.
  - intros cached Hhit. rewrite Hhit. simpl. auto.
Qed.


(** X12.  When the lookup returns a falsy value ([null], [false], [0] or
    the empty string parse without error), the value is cached and the popup
    stays on its loading text; every later click on the word finds the falsy
    entry, makes no request and leaves the loading text again, and the word
    never becomes the current word. *)
Theorem falsy_definition_stays_loading
    (event again : WordEvent) (app : App) (definition : JSValue) :
  fallbackDefinitions app !! dataset_word event = None ->
  trim (apiKeyInput app) <> [] ->
  lookup (requests app) (dataset_word event) (trim (apiKeyInput app)) = inr definition ->
  truthy definition = false ->
  dataset_word again = dataset_word event ->
  let first := showWordPopup event app in
  let second := showWordPopup again (snd first) in
  fst first = ret tt
  /\ popupHidden (snd first) = false
  /\ popupMeaning (snd first) = loadingMarkup
  /\ currentWord (snd first) = currentWord app
  /\ fallbackDefinitions (snd first) !! dataset_word event = Some definition
  /\ requests (snd first) = S (requests app)
  /\ fst second = ret tt
  /\ popupMeaning (snd second) = loadingMarkup
  /\ currentWord (snd second) = currentWord app
  /\ requests (snd second) = requests (snd first).
Proof.
  intros Hmiss Hkey Hfound Hfalse Hsame first second. subst first second.
  destruct (trim (apiKeyInput app)) as [|c key] eqn:Hk; [contradiction|].
  set (word := dataset_word event) in *.
  assert (showWordPopup event app
          = (ret tt,
             setDefinition word definition
               (countRequest
                  (showPopup word loadingMarkup
                     (position event word loadingMarkup) app))))
    as Hfirst.
  { unfold Resolver.showWordPopup, Resolver.getWordDefinition. fold word.
    rewrite Hmiss. simpl. rewrite Hk. simpl. rewrite Hmiss, Hfound. simpl.
    unfold showDefinition. rewrite Hfalse. reflexivity. }
  rewrite Hfirst. simpl.
  rewrite lookup_insert_eq.
  repeat (split; [reflexivity|]).
  unfold Resolver.showWordPopup, Resolver.getWordDefinition.
  rewrite Hsame. fold word. simpl.
  rewrite lookup_insert_eq. simpl. rewrite Hfalse, Hk. simpl.
  rewrite ?lookup_insert_eq. simpl.
  unfold showDefinition. rewrite Hfalse. simpl.
  repeat split; reflexivity.
Qed.


End ResolverMore.

(** ** Settings, language toggle and story generation *)

Section SessionFacts.

Import Resolver Session.

Variable fetchStory : nat -> jsstring -> jsstring -> Completion Response.
Variable JSON_parse : jsstring -> Completion JSValue.
Variable engineMessage : Exception -> jsstring.

Local Abbreviation errorMessage := (Session.errorMessage engineMessage).
Local Abbreviation callOpenAIService := (Session.callOpenAIService fetchStory JSON_parse).
Local Abbreviation generateStory :=
  (Session.generateStory fetchStory JSON_parse engineMessage).

(** X14.  The settings survive a reload: on a document whose storage is the
    one left by [saveApiKey] and [savePrompt], the constructor fills the key
    field and the prompt field with the saved values.  A field saved empty
    restores nothing: the document keeps what it was loaded with. *)
Theorem settings_survive_reload (page document : Page) :
  localStorage document = localStorage (savePrompt (saveApiKey page)) ->
  apiKeyInput (app (construct document))
  = match apiKeyInput (app page) with
    | [] => apiKeyInput (app document)
    | key => key
    end
  /\ promptInput (construct document)
     = match promptInput page with
       | [] => promptInput document
       | prompt => prompt
       end.
Proof.
  intros Hstorage. unfold construct, loadPrompt, loadApiKey.
  rewrite Hstorage. simpl.
  rewrite lookup_insert_ne by discriminate. rewrite lookup_insert_eq.
  split.
  - destruct (apiKeyInput (app page)) as [|c key]; simpl;
      rewrite ?Hstorage; simpl; rewrite lookup_insert_eq;
      destruct (promptInput page); reflexivity.
  - destruct (apiKeyInput (app page)) as [|c key]; simpl;
      rewrite ?Hstorage; simpl; rewrite lookup_insert_eq;
      destruct (promptInput page); reflexivity.
Qed.

(** X15.  After a toggle exactly one of the two stories is hidden, the
    button names the hidden language, and the Japanese story is the visible
    one exactly when the current language is Japanese.  The next toggle
    swaps the panes and the one after it restores the state; the story
    contents are never touched. *)
Theorem toggle_swaps_panes (v : StoryView) :
  let once := toggleLanguage v in
  japaneseStoryHidden once = negb (englishStoryHidden once)
  /\ toggleBtnText once
     = (if japaneseStoryHidden once then lit "Show Japanese" else lit "Show English")
  /\ (currentLanguage once = JAPANESE <-> japaneseStoryHidden once = false)
  /\ japaneseStoryHidden (toggleLanguage once) = negb (japaneseStoryHidden once)
  /\ toggleLanguage (toggleLanguage once) = once
  /\ japaneseStory once = japaneseStory v
  /\ englishStory once = englishStory v.
Proof.
  unfold toggleLanguage, updateLanguageDisplay.
  destruct (bool_decide (currentLanguage v = JAPANESE)); simpl;
    repeat split; try reflexivity; try discriminate.
Qed.

(** X16.  With a blank key, or with a key and a blank prompt,
    [generateStory] only alerts (the key is asked for first): no request
    is made and nothing on the page changes. *)
Theorem blank_fields_only_alert (page : Page) :
  Forall (fun c => isWhiteSpace c = true) (apiKeyInput (app page))
  \/ Forall (fun c => isWhiteSpace c = true) (promptInput page) ->
  generateStory page
  = (ret tt,
     alertPage
       (match trim (apiKeyInput (app page)) with
        | [] => lit "Please enter your OpenAI API key"
        | _ :: _ => lit "Please enter a story prompt"
        end) page).
Proof.
  intros Hblank. unfold Session.generateStory.
  destruct (trim (apiKeyInput (app page))) as [|c key] eqn:Hk; [reflexivity|].
  destruct Hblank as [Hkey|Hprompt].
  - apply trim_nil in Hkey. congruence.
  - apply trim_nil in Hprompt. rewrite Hprompt. reflexivity.
Qed.

(** X17.  When the service call fails, whatever the error, the run ends
    normally with one alert holding the message chosen for the error; the
    loading text is hidden and the button enabled again, one request was
    made, the story texts are unchanged, but the story section is left
    hidden, also when it showed a story before. *)
Theorem failed_generation_hides_story (page : Page) (error : Exception) :
  trim (apiKeyInput (app page)) <> [] ->
  trim (promptInput page) <> [] ->
  callOpenAIService (storyRequests page) (trim (promptInput page))
    (trim (apiKeyInput (app page))) = inl error ->
  let after := snd (generateStory page) in
  fst (generateStory page) = ret tt
  /\ alerts (app after) = alerts (app page) ++ [errorMessage error]
  /\ storySectionHidden (view after) = true
  /\ loadingHidden (view after) = true
  /\ generateBtnDisabled (view after) = false
  /\ storyRequests after = S (storyRequests page)
  /\ japaneseStory (view after) = japaneseStory (view page)
  /\ englishStory (view after) = englishStory (view page).
Proof.
  intros Hkey Hprompt Hfail. unfold Session.generateStory, tryGenerate.
  destruct (trim (apiKeyInput (app page))) as [|c key]; [contradiction|].
  destruct (trim (promptInput page)) as [|d prompt]; [contradiction|].
  simpl. rewrite Hfail. simpl. repeat split; reflexivity.
Qed.

(** X18.  When the service returns two strings, the Japanese pane holds the
    annotated Japanese text and the English pane the translation with its
    newlines as line breaks; the section and the toggle are shown, Japanese
    first; the loading text is hidden, the button enabled, nothing is
    alerted. *)
Theorem generated_story_displayed (page : Page) (ja en : jsstring)
    (definitions : gmap jsstring JSValue) :
  trim (apiKeyInput (app page)) <> [] ->
  trim (promptInput page) <> [] ->
  callOpenAIService (storyRequests page) (trim (promptInput page))
    (trim (apiKeyInput (app page)))
  = inr {| japanese := JString ja; english := JString en;
           stories_wordDefinitions := definitions |} ->
  let after := snd (generateStory page) in
  fst (generateStory page) = ret tt
  /\ japaneseStory (view after) = makeWordsClickable ja
  /\ englishStory (view after) = nl2br en
  /\ storySectionHidden (view after) = false
  /\ toggleBtnHidden (view after) = false
  /\ currentLanguage (view after) = JAPANESE
  /\ japaneseStoryHidden (view after) = false
  /\ englishStoryHidden (view after) = true
  /\ toggleBtnText (view after) = lit "Show English"
  /\ loadingHidden (view after) = true
  /\ generateBtnDisabled (view after) = false
  /\ alerts (app after) = alerts (app page).
Proof.
  intros Hkey Hprompt Hok. unfold Session.generateStory, tryGenerate.
  destruct (trim (apiKeyInput (app page))) as [|c key]; [contradiction|].
  destruct (trim (promptInput page)) as [|d prompt]; [contradiction|].
  simpl. rewrite Hok. simpl. repeat split; reflexivity.
Qed.

(** X19.  When the Japanese story is a string but the translation is not
    (a missing [english] property, say), [displayStories] throws after it
    has written the Japanese pane: the user gets the alert for a
    [TypeError], the section stays hidden, and the Japanese pane already
    holds the new story while the English pane holds the old one. *)
Theorem missing_translation_half_written (page : Page) (ja : jsstring)
    (en : JSValue) (definitions : gmap jsstring JSValue) :
  trim (apiKeyInput (app page)) <> [] ->
  trim (promptInput page) <> [] ->
  callOpenAIService (storyRequests page) (trim (promptInput page))
    (trim (apiKeyInput (app page)))
  = inr {| japanese := JString ja; english := en;
           stories_wordDefinitions := definitions |} ->
  (forall s, en <> JString s) ->
  let after := snd (generateStory page) in
  alerts (app after) = alerts (app page) ++ [errorMessage TypeError]
  /\ storySectionHidden (view after) = true
  /\ japaneseStory (view after) = makeWordsClickable ja
  /\ englishStory (view after) = englishStory (view page)
  /\ loadingHidden (view after) = true
  /\ generateBtnDisabled (view after) = false.
Proof.
  intros Hkey Hprompt Hok Hen. unfold Session.generateStory, tryGenerate.
  destruct (trim (apiKeyInput (app page))) as [|c key]; [contradiction|].
  destruct (trim (promptInput page)) as [|d prompt]; [contradiction|].
  simpl. rewrite Hok. unfold displayStories. simpl.
  destruct en; try (simpl; repeat split; reflexivity).
  exfalso. eapply Hen. reflexivity.
Qed.

Lemma callOpenAIService_status (n : nat) (prompt apiKey : jsstring) (response : Response) :
  fetchStory n prompt apiKey = inr response ->
  ok response = false ->
  callOpenAIService n prompt apiKey
  = inl (HttpError (status response) (statusText response)).
Proof.
  intros Hfetch Hok. unfold Session.callOpenAIService.
  rewrite Hfetch. simpl. rewrite Hok. reflexivity.
Qed.

Lemma includes_401_after_429 (text : jsstring) :
  includesText (lit "401") (lit "HTTP " ++ decimal 429 ++ lit ": " ++ text)
  = includesText (lit "401") text.
Proof.
  change (decimal 429) with (lit "429").
  destruct text as [|c text]; reflexivity.
Qed.

(** X20.  A response with status 401 is reported as an invalid key, whatever
    its status text. *)
Theorem status_401_reported_as_invalid_key (page : Page) (response : Response) :
  trim (apiKeyInput (app page)) <> [] ->
  trim (promptInput page) <> [] ->
  fetchStory (storyRequests page) (trim (promptInput page))
    (trim (apiKeyInput (app page))) = inr response ->
  ok response = false ->
  status response = 401 ->
  alerts (app (snd (generateStory page))) = alerts (app page) ++ [INVALID_KEY].
Proof.
  intros Hkey Hprompt Hfetch Hok Hstatus.
  pose proof (callOpenAIService_status _ _ _ _ Hfetch Hok) as Hfail.
  unfold Session.generateStory, tryGenerate.
  destruct (trim (apiKeyInput (app page))) as [|c key]; [contradiction|].
  destruct (trim (promptInput page)) as [|d prompt]; [contradiction|].
  simpl. rewrite Hfail. simpl. rewrite Hstatus. reflexivity.
Qed.

(** X21.  A response with status 429 is reported as a rate limit, unless its
    status text holds [401]: the test for 401 comes first and reads the whole
    message. *)
Theorem status_429_reported_as_rate_limit (page : Page) (response : Response) :
  trim (apiKeyInput (app page)) <> [] ->
  trim (promptInput page) <> [] ->
  fetchStory (storyRequests page) (trim (promptInput page))
    (trim (apiKeyInput (app page))) = inr response ->
  ok response = false ->
  status response = 429 ->
  alerts (app (snd (generateStory page)))
  = alerts (app page)
    ++ [if includesText (lit "401") (statusText response)
        then INVALID_KEY else RATE_LIMIT].
Proof.
  intros Hkey Hprompt Hfetch Hok Hstatus.
  pose proof (callOpenAIService_status _ _ _ _ Hfetch Hok) as Hfail.
  unfold Session.generateStory, tryGenerate.
  destruct (trim (apiKeyInput (app page))) as [|c key]; [contradiction|].
  destruct (trim (promptInput page)) as [|d prompt]; [contradiction|].
  simpl. rewrite Hfail. simpl. rewrite Hstatus.
  unfold Session.errorMessage, message.
  rewrite includes_401_after_429.
  destruct (includesText (lit "401") (statusText response)); reflexivity.
Qed.

(** X22.  When the content of the answer does not parse, or parses to
    [null], the error made is [Invalid response format from AI service], but
    the user is shown the general message: none of the three tests matches
    that text. *)
Theorem unparsable_story_reported_generally (page : Page) (response : Response)
    (content : JSValue) :
  trim (apiKeyInput (app page)) <> [] ->
  trim (promptInput page) <> [] ->
  fetchStory (storyRequests page) (trim (promptInput page))
    (trim (apiKeyInput (app page))) = inr response ->
  ok response = true ->
  json response
  = inr (JObject [ (lit "choices",
          JArray [ JObject [ (lit "message",
                     JObject [ (lit "content", content) ]) ] ]) ]) ->
  (exists e, JSON_parse (ToString content) = inl e)
  \/ JSON_parse (ToString content) = inr JNull ->
  callOpenAIService (storyRequests page) (trim (promptInput page))
    (trim (apiKeyInput (app page))) = inl (OtherError INVALID_FORMAT)
  /\ alerts (app (snd (generateStory page))) = alerts (app page) ++ [TRY_AGAIN].
Proof.
  intros Hkey Hprompt Hfetch Hok Hjson Hparse.
  assert (callOpenAIService (storyRequests page) (trim (promptInput page))
            (trim (apiKeyInput (app page))) = inl (OtherError INVALID_FORMAT)) as Hfail.
  { unfold Session.callOpenAIService. rewrite Hfetch. simpl.
    rewrite Hok, Hjson. simpl.
    destruct Hparse as [[e ->]| ->]; reflexivity. }
  split; [exact Hfail|].
  unfold Session.generateStory, tryGenerate.
  destruct (trim (apiKeyInput (app page))) as [|c key]; [contradiction|].
  destruct (trim (promptInput page)) as [|d prompt]; [contradiction|].
  simpl. rewrite Hfail. reflexivity.
Qed.

End SessionFacts.

(** ** Copying a definition *)

Section CopyFacts.

Import Resolver Session.

Variable fetch : nat -> jsstring -> jsstring -> Completion Response.
Variable JSON_parse : jsstring -> Completion JSValue.
Variable window : Popup.Window.
Variable getBoundingClientRect : jsstring -> jsstring -> Popup.Rect.
Variable writeText : jsstring -> Completion unit.
Variable execCommandCopy : jsstring -> bool.

Local Abbreviation lookup := (Resolver.lookup fetch JSON_parse).
Local Abbreviation showWordPopup :=
  (Resolver.showWordPopup fetch JSON_parse window getBoundingClientRect).
Local Abbreviation copyToClipboard := (Session.copyToClipboard writeText execCommandCopy).

(** X23.  After a click whose lookup failed, the popup shows the
    unavailable definition and the word is the current word, but the copy
    button does nothing: the sentinel is not in the cache, so there is
    nothing to copy; clipboard and button stay as they are. *)
Theorem unavailable_definition_not_copied (page : Page) (event : WordEvent)
    (e : Exception) :
  fallbackDefinitions (app page) !! dataset_word event = None ->
  trim (apiKeyInput (app page)) <> [] ->
  lookup (requests (app page)) (dataset_word event) (trim (apiKeyInput (app page)))
  = inl e ->
  let shown := withApp (snd (showWordPopup event (app page))) page in
  currentWord (app shown) = Some (dataset_word event)
  /\ copyToClipboard shown = (ret tt, shown).
Proof.
  intros Hmiss Hkey Hfail shown. subst shown.
  unfold Resolver.showWordPopup, Resolver.getWordDefinition.
  rewrite Hmiss. simpl.
  destruct (trim (apiKeyInput (app page))) as [|c key]; [contradiction|].
  simpl. rewrite Hmiss, Hfail. simpl.
  split; [reflexivity|].
  unfold Session.copyToClipboard. simpl. rewrite Hmiss. reflexivity.
Qed.



End CopyFacts.

(** ** Instances *)

Import Resolver Session Worlds Pages.

Lemma blank_key_only_alerts_witness :
  showWordPopup offline parse window rect click keyless
  = (ret tt, alert (lit "API key needed to look up word definitions") keyless).
Proof.
  apply (blank_key_only_alerts offline parse window rect click keyless).
  - reflexivity.
  - repeat constructor.
Defined.



Lemma falsy_definition_stays_loading_witness :
  let first := showWordPopup online parseNull window rect click fresh in
  let second := showWordPopup online parseNull window rect touch (snd first) in
  fst first = ret tt
  /\ popupHidden (snd first) = false
  /\ popupMeaning (snd first) = loadingMarkup
  /\ currentWord (snd first) = currentWord fresh
  /\ fallbackDefinitions (snd first) !! dataset_word click = Some JNull
  /\ requests (snd first) = S (requests fresh)
  /\ fst second = ret tt
  /\ popupMeaning (snd second) = loadingMarkup
  /\ currentWord (snd second) = currentWord fresh
  /\ requests (snd second) = requests (snd first).
Proof.
  apply (falsy_definition_stays_loading online parseNull window rect click touch fresh
           JNull).
  - reflexivity.
  - vm_compute. discriminate.
  - vm_compute. reflexivity.
  - reflexivity.
  - reflexivity.
Defined.


Lemma settings_survive_reload_witness :
  apiKeyInput (app (construct reloaded)) = lit " sk-test "
  /\ promptInput (construct reloaded) = lit "a story about a cat".
Proof.
  apply (settings_survive_reload reader reloaded). reflexivity.
Defined.

Lemma blank_fields_only_alert_witness :
  generateStory storyOffline parseStory failedToFetch (withApp keyless reader)
  = (ret tt, alertPage (lit "Please enter your OpenAI API key") (withApp keyless reader)).
Proof.
  apply (blank_fields_only_alert storyOffline parseStory failedToFetch
           (withApp keyless reader)).
  left. repeat constructor.
Defined.

Lemma failed_generation_hides_story_witness :
  let after := snd (generateStory storyOffline parseStory failedToFetch reader) in
  fst (generateStory storyOffline parseStory failedToFetch reader) = ret tt
  /\ alerts (app after) = alerts (app reader) ++ [errorMessage failedToFetch TypeError]
  /\ storySectionHidden (view after) = true
  /\ loadingHidden (view after) = true
  /\ generateBtnDisabled (view after) = false
  /\ storyRequests after = S (storyRequests reader)
  /\ japaneseStory (view after) = japaneseStory (view reader)
  /\ englishStory (view after) = englishStory (view reader).
Proof.
  apply (failed_generation_hides_story storyOffline parseStory failedToFetch reader
           TypeError).
  - vm_compute. discriminate.
  - vm_compute. discriminate.
  - reflexivity.
Defined.

Lemma generated_story_displayed_witness :
  let after :=
    snd (generateStory (storyService storyContent) parseStory failedToFetch reader) in
  fst (generateStory (storyService storyContent) parseStory failedToFetch reader) = ret tt
  /\ japaneseStory (view after) = makeWordsClickable neko_ga_suki_desu
  /\ englishStory (view after) = nl2br (lit "I like cats.")
  /\ storySectionHidden (view after) = false
  /\ toggleBtnHidden (view after) = false
  /\ currentLanguage (view after) = JAPANESE
  /\ japaneseStoryHidden (view after) = false
  /\ englishStoryHidden (view after) = true
  /\ toggleBtnText (view after) = lit "Show English"
  /\ loadingHidden (view after) = true
  /\ generateBtnDisabled (view after) = false
  /\ alerts (app after) = alerts (app reader).
Proof.
  apply (generated_story_displayed (storyService storyContent) parseStory failedToFetch
           reader neko_ga_suki_desu (lit "I like cats.") ∅).
  - vm_compute. discriminate.
  - vm_compute. discriminate.
  - reflexivity.
Defined.

Lemma missing_translation_half_written_witness :
  let after :=
    snd (generateStory (storyService halfContent) parseStory failedToFetch reader) in
  alerts (app after) = alerts (app reader) ++ [errorMessage failedToFetch TypeError]
  /\ storySectionHidden (view after) = true
  /\ japaneseStory (view after) = makeWordsClickable neko_ga_suki_desu
  /\ englishStory (view after) = englishStory (view reader)
  /\ loadingHidden (view after) = true
  /\ generateBtnDisabled (view after) = false.
Proof.
  apply (missing_translation_half_written (storyService halfContent) parseStory
           failedToFetch reader neko_ga_suki_desu JUndefined ∅).
  - vm_compute. discriminate.
  - vm_compute. discriminate.
  - reflexivity.
  - discriminate.
Defined.

Lemma status_401_reported_as_invalid_key_witness :
  alerts (app (snd (generateStory (storyRefused 401 (lit "Unauthorized")) parseStory
                      failedToFetch reader)))
  = alerts (app reader) ++ [INVALID_KEY].
Proof.
  apply (status_401_reported_as_invalid_key (storyRefused 401 (lit "Unauthorized"))
           parseStory failedToFetch reader
           {| ok := false; status := 401; statusText := lit "Unauthorized";
              json := ret JNull |}).
  - vm_compute. discriminate.
  - vm_compute. discriminate.
  - reflexivity.
  - reflexivity.
  - reflexivity.
Defined.

Lemma status_429_reported_as_rate_limit_witness :
  alerts (app (snd (generateStory (storyRefused 429 (lit "Too Many Requests")) parseStory
                      failedToFetch reader)))
  = alerts (app reader) ++ [RATE_LIMIT].
Proof.
  apply (status_429_reported_as_rate_limit (storyRefused 429 (lit "Too Many Requests"))
           parseStory failedToFetch reader
           {| ok := false; status := 429; statusText := lit "Too Many Requests";
              json := ret JNull |}).
  - vm_compute. discriminate.
  - vm_compute. discriminate.
  - reflexivity.
  - reflexivity.
  - reflexivity.
Defined.

Lemma unparsable_story_reported_generally_witness :
  callOpenAIService (storyService (lit "oops")) parseStory (storyRequests reader)
    (trim (promptInput reader)) (trim (apiKeyInput (app reader)))
  = inl (OtherError INVALID_FORMAT)
  /\ alerts (app (snd (generateStory (storyService (lit "oops")) parseStory
                         failedToFetch reader)))
     = alerts (app reader) ++ [TRY_AGAIN].
Proof.
  apply (unparsable_story_reported_generally (storyService (lit "oops")) parseStory
           failedToFetch reader
           {| ok := true; status := 200; statusText := lit "OK";
              json := ret (storyAnswer (lit "oops")) |}
           (JString (lit "oops"))).
  - vm_compute. discriminate.
  - vm_compute. discriminate.
  - reflexivity.
  - reflexivity.
  - reflexivity.
  - left. exists SyntaxError. reflexivity.
Defined.

Lemma unavailable_definition_not_copied_witness :
  let shown := withApp (snd (showWordPopup offline parse window rect click (app reader)))
                 reader in
  currentWord (app shown) = Some (dataset_word click)
  /\ copyToClipboard clipboardGranted fallbackWorks shown = (ret tt, shown).
Proof.
  apply (unavailable_definition_not_copied offline parse window rect clipboardGranted
           fallbackWorks reader click TypeError).
  - reflexivity.
  - vm_compute. discriminate.
  - reflexivity.
Defined.


